(** * dependawhat: deny-list matching of Dependabot pull requests

    A shallow embedding of the core of [internal/scm/github.go]
    ([extractPackageInfo], [isDenied], [GetDependabotPRsWithDenyList]) and of
    [cmd/dependawhat/commands.go] ([removeDuplicates] and the merge of the
    global and per-repository deny lists in [runCheck]).

    Go strings are byte strings; they are modelled by Rocq's [string] (a list
    of 8-bit characters).  The functions of Go's [strings] package and the
    three regular expressions of [extractPackageInfo] are modelled on bytes:
    letters are the ASCII letters, white space is ASCII white space.  Bytes
    above 127 are carried through unchanged and never count as letters or
    white space, so the model is that of the program on ASCII text. *)

From Stdlib Require Import ZArith Ascii String Bool Lia ZifyBool.
From stdpp Require Import base option list gmap strings.

Local Open Scope string_scope.
Local Open Scope Z_scope.
Local Open Scope list_scope.

(** ** Go's [strings] package, on bytes *)

Module GoStrings.

(** ['A' <= c && c <= 'Z'] *)
Definition isUpper (c : ascii) : bool :=
  let n := N_of_ascii c in ((65 <=? n) && (n <=? 90))%N.

(** [c += 'a' - 'A'] for an upper-case letter *)
Definition toLowerByte (c : ascii) : ascii :=
  if isUpper c then ascii_of_N (N_of_ascii c + 32) else c.

(** [strings.ToLower] *)
Fixpoint ToLower (s : string) : string :=
  match s with
  | EmptyString => EmptyString
  | String c s' => String (toLowerByte c) (ToLower s')
  end.

(** One step of the byte loop of [strings.EqualFold]: equal bytes, or an
    upper-case letter and its lower-case form. *)
Definition foldEq (sr tr : ascii) : bool :=
  if Ascii.eqb tr sr then true
  else
    let lo := if (N_of_ascii tr <? N_of_ascii sr)%N then tr else sr in
    let hi := if (N_of_ascii tr <? N_of_ascii sr)%N then sr else tr in
    isUpper lo && (N_of_ascii hi =? N_of_ascii lo + 32)%N.

(** [strings.EqualFold]: the loop runs while both strings have bytes and
    ends with [len(s) == len(t)]. *)
Fixpoint EqualFold (s t : string) : bool :=
  match s, t with
  | EmptyString, EmptyString => true
  | String sr s', String tr t' => foldEq sr tr && EqualFold s' t'
  | _, _ => false
  end.

(** [strings.HasPrefix] *)
Fixpoint HasPrefix (s prefix : string) {struct prefix} : bool :=
  match prefix, s with
  | EmptyString, _ => true
  | String p prefix', String c s' => Ascii.eqb c p && HasPrefix s' prefix'
  | String _ _, EmptyString => false
  end.

(** [strings.HasSuffix]:
    [len(s) >= len(suffix) && s[len(s)-len(suffix):] == suffix] *)
Definition HasSuffix (s suffix : string) : bool :=
  let n := String.length s in
  let m := String.length suffix in
  (m <=? n)%nat && String.eqb (substring (n - m) m s) suffix.

(** [strings.Index]: the first position of [substr] in [s], or [-1]. *)
Fixpoint Index (s substr : string) : Z :=
  if HasPrefix s substr then 0
  else
    match s with
    | EmptyString => -1
    | String _ s' =>
        let i := Index s' substr in
        if i <? 0 then -1 else i + 1
    end.

(** [strings.Contains]: [Index(s, substr) >= 0] *)
Definition Contains (s substr : string) : bool := 0 <=? Index s substr.

(** [strings.TrimPrefix] *)
Fixpoint dropBytes (n : nat) (s : string) : string :=
  match n, s with
  | O, _ => s
  | S n', String _ s' => dropBytes n' s'
  | S _, EmptyString => EmptyString
  end.

Definition TrimPrefix (s prefix : string) : string :=
  if HasPrefix s prefix then dropBytes (String.length prefix) s else s.

(** The slice [s[:i]] for [0 <= i <= len(s)] *)
Definition sliceTo (s : string) (i : Z) : string := substring 0 (Z.to_nat i) s.

(** [strings.Split(s, sep)] for a separator of one byte, the only kind the
    program uses.  The result always has at least one element. *)
Fixpoint Split (s : string) (sep : ascii) : list string :=
  match s with
  | EmptyString => [EmptyString]
  | String c s' =>
      if Ascii.eqb c sep then EmptyString :: Split s' sep
      else
        match Split s' sep with
        | [] => [String c EmptyString]
        | seg :: segs => String c seg :: segs
        end
  end.

(** White space of [unicode.IsSpace] below 128 (used by [strings.Fields] and
    [strings.TrimSpace]): ['\t', '\n', '\v', '\f', '\r', ' ']. *)
Definition isSpace (c : ascii) : bool :=
  let n := N_of_ascii c in ((9 <=? n) && (n <=? 13) || (n =? 32))%N.

(** [strings.Fields]: the maximal runs of bytes that are not white space. *)
Fixpoint fieldsGo (cur : string) (s : string) : list string :=
  match s with
  | EmptyString =>
      match cur with EmptyString => [] | _ => [String.rev cur] end
  | String c s' =>
      if isSpace c then
        match cur with
        | EmptyString => fieldsGo EmptyString s'
        | _ => String.rev cur :: fieldsGo EmptyString s'
        end
      else fieldsGo (String c cur) s'
  end.

Definition Fields (s : string) : list string := fieldsGo EmptyString s.

(** [strings.TrimSpace] *)
Fixpoint trimLeft (s : string) : string :=
  match s with
  | String c s' => if isSpace c then trimLeft s' else s
  | EmptyString => EmptyString
  end.

Fixpoint trimRight (s : string) : string :=
  match s with
  | EmptyString => EmptyString
  | String c s' =>
      match trimRight s' with
      | EmptyString => if isSpace c then EmptyString else String c EmptyString
      | r => String c r
      end
  end.

Definition TrimSpace (s : string) : string := trimRight (trimLeft s).

End GoStrings.

Import GoStrings.

(** ** Go's [regexp] package: the fragment the program uses

    Go's [regexp] returns the leftmost match and, among the matches that begin
    there, the one a backtracking search finds first (greedy operators try the
    longest repetition first, alternations the left branch first).  [run] is
    that backtracking search in continuation-passing style over a string of
    bytes; the continuation is given the rest of the text and the text of the
    capturing group so far. *)

Module Regexp.

Inductive re : Type :=
| Byte (cls : ascii → bool)      (* one byte of a class *)
| Cat (r1 r2 : re)               (* r1 r2 *)
| Alt (r1 r2 : re)               (* r1|r2 *)
| Star (r : re)                  (* r*, greedy *)
| Group (r : re).                (* (r), the capturing group *)

(** [r+] *)
Definition Plus (r : re) : re := Cat r (Star r).

(** The search for [r*]: one more repetition first (it has to consume at
    least one byte), and the rest of the expression when that fails.  The
    fuel is the length of the text, which no run of repetitions exceeds. *)
Definition starLoop {R : Type}
    (step : string → string → (string → string → option R) → option R)
    (k : string → string → option R) : nat → string → string → option R :=
  fix loop (fuel : nat) (s : string) (cap : string) : option R :=
    match fuel with
    | O => k s cap
    | S fuel' =>
        match
          step s cap
            (λ s1 cap1,
               if (String.length s1 <? String.length s)%nat
               then loop fuel' s1 cap1 else None)
        with
        | Some x => Some x
        | None => k s cap
        end
    end.

Fixpoint run {R : Type} (r : re) (s : string) (cap : string)
    (k : string → string → option R) : option R :=
  match r with
  | Byte cls =>
      match s with
      | String c s' => if cls c then k s' cap else None
      | EmptyString => None
      end
  | Cat r1 r2 => run r1 s cap (λ s1 cap1, run r2 s1 cap1 k)
  | Alt r1 r2 =>
      match run r1 s cap k with
      | Some x => Some x
      | None => run r2 s cap k
      end
  | Star r' => starLoop (run r') k (String.length s) s cap
  | Group r' =>
      run r' s cap
        (λ s1 _, k s1 (substring 0 (String.length s - String.length s1) s))
  end.

(** [FindStringSubmatch] of a compiled expression, for an expression that
    begins with [^] and has one capturing group: a match can only begin at
    offset 0.  The result is [nil] when there is no match, and otherwise the
    matched text followed by the text of the group. *)
Definition FindStringSubmatch (r : re) (s : string) : list string :=
  match
    run r s EmptyString
      (λ s1 cap,
         Some [substring 0 (String.length s - String.length s1) s; cap])
  with
  | Some matches => matches
  | None => []
  end.

(** A literal letter under the flag [(?i)] *)
Definition letter (c : ascii) : re := Byte (λ x, Ascii.eqb (toLowerByte x) c).

Fixpoint word (w : string) : re :=
  match w with
  | EmptyString => Star (Byte (λ _, false))
  | String c EmptyString => letter c
  | String c w' => Cat (letter c) (word w')
  end.

(** [\s] is [[\t\n\f\r ]] (no vertical tab), [[^\s]] its complement and [.]
    any byte but a newline. *)
Definition isReSpace (c : ascii) : bool :=
  let n := N_of_ascii c in
  ((n =? 9) || (n =? 10) || (n =? 12) || (n =? 13) || (n =? 32))%N.

Definition space : re := Byte isReSpace.
Definition nonSpace : re := Byte (λ c, negb (isReSpace c)).
Definition anyByte : re := Byte (λ c, negb (N_of_ascii c =? 10)%N).

(** [\s+([^\s]+)\s+(?:from|to)], the common tail of the three patterns *)
Definition packageTail : re :=
  Cat (Plus space)
    (Cat (Group (Plus nonSpace))
       (Cat (Plus space) (Alt (word "from") (word "to")))).

End Regexp.

Import Regexp.

(** ** [internal/scm/github.go] *)

(** [dependabotUserID] *)
Definition dependabotUserID : Z := 49699333.

(** The three expressions of [extractPackageInfo]; all carry the flag [(?i)]
    and begin with [^]. *)

(** [(?i)^[Bb]ump\s+([^\s]+)\s+(?:from|to)] *)
Definition bumpPattern : re := Cat (word "bump") packageTail.

(** [(?i)^[Uu]pdate\s+([^\s]+)\s+(?:from|to)] *)
Definition updatePattern : re := Cat (word "update") packageTail.

(** [(?i)^chore.*[Bb]ump\s+([^\s]+)\s+(?:from|to)] *)
Definition chorePattern : re :=
  Cat (word "chore") (Cat (Star anyByte) (Cat (word "bump") packageTail)).

(** The [patterns] table: each entry is an expression and the index of the
    group that holds the package. *)
Definition patterns : list (re * nat) :=
  [(bumpPattern, 1%nat); (updatePattern, 1%nat); (chorePattern, 1%nat)].

(** The loop over [patterns]: the first expression with a match that has the
    group sets [packageName] and ends the loop. *)
Fixpoint matchPatterns (ps : list (re * nat)) (title : string) : string :=
  match ps with
  | [] => EmptyString
  | (regex, pkgIndex) :: ps' =>
      let matches := FindStringSubmatch regex title in
      if (pkgIndex <? length matches)%nat
      then matches !!! pkgIndex
      else matchPatterns ps' title
  end.

(** The fallback loop over [parts[1:]] *)
Fixpoint firstPackageLike (parts : list string) : string :=
  match parts with
  | [] => EmptyString
  | part :: parts' =>
      if Contains part "/" || Contains part "@" then part
      else firstPackageLike parts'
  end.

(** The last loop of the organisation rules: the first segment after index 0
    with no ["."] that does not begin with ["v"]. *)
Fixpoint firstOrgLike (i : nat) (parts : list string) : string :=
  match parts with
  | [] => EmptyString
  | part :: parts' =>
      if (0 <? i)%nat && negb (Contains part ".") && negb (HasPrefix part "v")
      then part
      else firstOrgLike (S i) parts'
  end.

(** The first half of [extractPackageInfo]: the package name. *)
Definition extractPackageName (title : string) : string :=
  let packageName := matchPatterns patterns title in
  if String.eqb packageName "" then
    let parts := Fields title in
    if (1 <? length parts)%nat then firstPackageLike (drop 1 parts)
    else EmptyString
  else packageName.

(** The second half of [extractPackageInfo]: the organisation of a package
    name ([orgName] starts as the empty string). *)
Definition extractOrgName (packageName : string) : string :=
  if negb (String.eqb packageName "") then
    if HasPrefix packageName "@" && Contains packageName "/" then
      let parts := Split packageName "/" in
      TrimPrefix (parts !!! 0%nat) "@"
    else if Contains packageName "/" then
      if HasPrefix packageName "golang.org/x/"
         || HasPrefix packageName "google.golang.org/"
      then EmptyString
      else if HasPrefix packageName "gopkg.in/" then
        let parts := Split packageName "/" in
        if (2 <? length parts)%nat then ToLower (parts !!! 1%nat)
        else EmptyString
      else
        let parts := Split packageName "/" in
        if (3 <=? length parts)%nat && HasPrefix packageName "github.com/"
        then parts !!! 1%nat
        else firstOrgLike 0 parts
    else EmptyString
  else EmptyString.

Definition extractPackageInfo (title : string) : string * string :=
  let packageName := extractPackageName title in
  (packageName, extractOrgName packageName).

(** The body of the loop of [isDenied] over [deniedPackages], for one entry:
    [true] where the body returns true, [false] where it goes on to the next
    entry (the [continue] of the wildcard branch, or the end of the body). *)
Definition packageDenied (packageName denied : string) : bool :=
  if Contains denied "*" then
    let pattern := ToLower denied in
    let pkg := ToLower packageName in
    if String.eqb pattern "*alpha*" && Contains pkg "alpha" then true
    else if String.eqb pattern "*beta*" && Contains pkg "beta" then true
    else if String.eqb pattern "*rc*" && Contains pkg "rc" then true
    else if String.eqb pattern "*/v0" && HasSuffix pkg "/v0" then true
    else false
  else if EqualFold packageName denied then true
  else if Contains denied "@" then
    Contains (ToLower packageName) (ToLower denied)
  else
    let deniedLower := ToLower denied in
    let pkgLower := ToLower packageName in
    if String.eqb pkgLower deniedLower then true
    else
      let idx := Index pkgLower "@" in
      if 0 <? idx then String.eqb (sliceTo pkgLower idx) deniedLower
      else false.

Definition isDenied (packageName orgName : string)
    (deniedPackages deniedOrgs : list string) : bool :=
  if existsb (packageDenied packageName) deniedPackages then true
  else if existsb (EqualFold orgName) deniedOrgs then true
  else false.

(** [internal/scm/deps.go] *)
Record DependencyUpdateQuery : Type := {
  Owner : string;
  Repo : string;
  DeniedPackages : list string;
  DeniedOrgs : list string
}.

Record PRInfo : Type := {
  Number : Z;
  Title : string;
  URL : string;
  Status : string;
  Skipped : bool;
  SkipReason : string
}.

(** What the program reads of a pull request of the GitHub API *)
Record PullRequest : Type := {
  userID : Z;
  number : Z;
  title : string;
  htmlURL : string;
  headSHA : string
}.

(** The answers of the GitHub API: the listing of the open pull requests of a
    repository and the state of the combined status of a commit, each either
    an error or a value. *)
Record GithubAPI (error : Type) : Type := {
  pullRequestsList : string → string → error + list PullRequest;
  getCombinedStatus : string → string → string → error + string
}.
Arguments pullRequestsList {error}.
Arguments getCombinedStatus {error}.

(** The loop that sets [pr.SkipReason] from [q.DeniedOrgs] *)
Fixpoint orgSkipReason (orgName : string) (deniedOrgs : list string) : string :=
  match deniedOrgs with
  | [] => EmptyString
  | denied :: rest =>
      if EqualFold orgName denied then "org '" +:+ orgName +:+ "' is denied"
      else orgSkipReason orgName rest
  end.

(** The loop that sets [pr.SkipReason] from [q.DeniedPackages] *)
Fixpoint packageSkipReason (packageName : string) (deniedPackages : list string)
    : string :=
  match deniedPackages with
  | [] => EmptyString
  | denied :: rest =>
      if EqualFold packageName denied
         || Contains (ToLower packageName) (ToLower denied)
      then "package '" +:+ denied +:+ "' is denied"
      else packageSkipReason packageName rest
  end.

(** The assignments to [pr.SkipReason] once [isDenied] has returned true:
    the organisation loop runs for a non-empty [orgName], the package loop
    when the reason is still empty and [packageName] is not. *)
Definition skipReason (packageName orgName : string) (q : DependencyUpdateQuery)
    : string :=
  let reason :=
    if negb (String.eqb orgName "") then orgSkipReason orgName (DeniedOrgs q)
    else EmptyString in
  if String.eqb reason "" && negb (String.eqb packageName "")
  then packageSkipReason packageName (DeniedPackages q)
  else reason.

(** The body of the loop of [GetDependabotPRsWithDenyList] for one pull
    request of Dependabot. *)
Definition prInfo {error : Type} (g : GithubAPI error)
    (q : DependencyUpdateQuery) (p : PullRequest) : PRInfo :=
  let '(packageName, orgName) := extractPackageInfo (title p) in
  let skipped := isDenied packageName orgName (DeniedPackages q) (DeniedOrgs q) in
  let reason := if skipped then skipReason packageName orgName q else EmptyString in
  let status :=
    match getCombinedStatus g (Owner q) (Repo q) (headSHA p) with
    | inr state => state
    | inl _ => EmptyString
    end in
  {| Number := number p; Title := title p; URL := htmlURL p;
     Status := status; Skipped := skipped; SkipReason := reason |}.

Fixpoint collectPRs {error : Type} (g : GithubAPI error)
    (q : DependencyUpdateQuery) (pulls : list PullRequest) (prs : list PRInfo)
    : list PRInfo :=
  match pulls with
  | [] => prs
  | p :: rest =>
      if userID p =? dependabotUserID
      then collectPRs g q rest (prs ++ [prInfo g q p])
      else collectPRs g q rest prs
  end.

Definition GetDependabotPRsWithDenyList {error : Type} (g : GithubAPI error)
    (q : DependencyUpdateQuery) : error + list PRInfo :=
  match pullRequestsList g (Owner q) (Repo q) with
  | inl err => inl err
  | inr pulls => inr (collectPRs g q pulls [])
  end.

(** ** [cmd/dependawhat/commands.go] *)

(** [removeDuplicates]: the loop carries the map [seen] and the slice
    [result]; a key that is absent from a Go map reads as [false]. *)
Fixpoint removeDuplicatesLoop (seen : gmap string bool) (result : list string)
    (slice : list string) : list string :=
  match slice with
  | [] => result
  | item :: rest =>
      let normalized := ToLower (TrimSpace item) in
      if negb (String.eqb normalized "")
         && negb (default false (seen !! normalized))
      then removeDuplicatesLoop (<[normalized := true]> seen) (result ++ [item]) rest
      else removeDuplicatesLoop seen result rest
  end.

Definition removeDuplicates (slice : list string) : list string :=
  removeDuplicatesLoop ∅ [] slice.

(** The deny lists of one scope of the configuration (the global one, or
    that of one repository), as [getStringSlice] returns them: a key that is
    not set gives the empty list. *)
Record DenyPolicy : Type := {
  denied_packages : list string;
  denied_orgs : list string
}.

Definition emptyPolicy : DenyPolicy :=
  {| denied_packages := []; denied_orgs := [] |}.

(** The merge of [runCheck]: the global lists, then the lists of the
    repository appended, then [removeDuplicates]. *)
Definition resolve (global repoOverride : DenyPolicy) : DenyPolicy :=
  let deniedPackages := denied_packages global in
  let deniedOrgs := denied_orgs global in
  let deniedPackages := deniedPackages ++ denied_packages repoOverride in
  let deniedOrgs := deniedOrgs ++ denied_orgs repoOverride in
  {| denied_packages := removeDuplicates deniedPackages;
     denied_orgs := removeDuplicates deniedOrgs |}.


(** The reading of one repository argument in [runCheck]: the path is split
    at ["/"], anything but two parts is reported as invalid and skipped, and
    the key of the repository in the configuration is built from the parts
    with [fmt.Sprintf("%s/%s", owner, repo)]. *)
Definition splitRepoPath (repoPath : string) : option (string * string * string) :=
  let parts := Split repoPath "/" in
  if negb (length parts =? 2)%nat then None
  else
    let owner := parts !!! 0%nat in
    let repo := parts !!! 1%nat in
    let repoKey := owner +:+ "/" +:+ repo in
    Some (owner, repo, repoKey).

(** ** Vocabulary of the properties *)

(** A byte below ['A'] or above ['z'] is left alone by [ToLower], and no
    other byte is mapped to it. *)
Definition caseless (c : ascii) : Prop :=
  (N_of_ascii c < 65 ∨ 122 < N_of_ascii c)%N.

(** Every byte of [s] is in the class [f]. *)
Fixpoint allBytes (f : ascii → bool) (s : string) : bool :=
  match s with
  | EmptyString => true
  | String c s' => f c && allBytes f s'
  end.

(** [s] begins with a byte of the class [f]. *)
Definition headIs (f : ascii → bool) (s : string) : bool :=
  match s with
  | EmptyString => false
  | String c _ => f c
  end.

(** The class [[^\s]] *)
Definition notReSpace (c : ascii) : bool := negb (isReSpace c).

(** The key under which [removeDuplicates] remembers an entry *)
Definition normalized (item : string) : string := ToLower (TrimSpace item).

(** An entry that is empty or made of white space only *)
Definition blank (item : string) : bool := allBytes isSpace item.

(** The test of the loop of [removeDuplicates] *)
Definition kept (seen : gmap string bool) (item : string) : bool :=
  negb (String.eqb (normalized item) "")
  && negb (default false (seen !! normalized item)).


(** [p.GetUser().GetID() == dependabotUserID] *)
Definition isDependabot (p : PullRequest) : bool :=
  userID p =? dependabotUserID.

(** The test of the loop that names the denied package *)
Definition namesPackage (pkg denied : string) : bool :=
  EqualFold pkg denied || Contains (ToLower pkg) (ToLower denied).



(** The texts an expression matches; a group matches what its body
    matches. *)
Inductive Matches : re → string → Prop :=
| Matches_Byte cls c : cls c = true → Matches (Byte cls) (String c "")
| Matches_Cat r1 r2 m1 m2 :
    Matches r1 m1 → Matches r2 m2 → Matches (Cat r1 r2) (m1 +:+ m2)
| Matches_Alt_l r1 r2 m : Matches r1 m → Matches (Alt r1 r2) m
| Matches_Alt_r r1 r2 m : Matches r2 m → Matches (Alt r1 r2) m
| Matches_Star_nil r : Matches (Star r) ""
| Matches_Star_more r m1 m2 :
    Matches r m1 → Matches (Star r) m2 → Matches (Star r) (m1 +:+ m2)
| Matches_Group r m : Matches r m → Matches (Group r) m.

(** The expression has a capturing group. *)
Fixpoint hasGroup (r : re) : bool :=
  match r with
  | Byte _ => false
  | Cat r1 r2 | Alt r1 r2 => hasGroup r1 || hasGroup r2
  | Star r' => hasGroup r'
  | Group _ => true
  end.

(** A package token: not empty, and no byte of the class [\s]. *)
Definition isToken (x : string) : Prop := x ≠ "" ∧ allBytes notReSpace x = true.

(** A run of white space of the class [\s]: not empty. *)
Definition isGap (ws : string) : Prop := ws ≠ "" ∧ allBytes isReSpace ws = true.

(** Whatever an expression matches, its group is a package token. *)
Definition capturesToken (r : re) : Prop :=
  ∀ (R : Type) (s cap : string) (k : string → string → option R) (x : R),
    run r s cap k = Some x →
    ∃ s1 tok, k s1 tok = Some x ∧ isToken tok.

(** [s] has a byte of the class [f]. *)
Definition someByte (f : ascii → bool) (s : string) : bool :=
  negb (allBytes (λ c, negb (f c)) s).

(** A title of the shape the expressions for a keyword describe: the keyword
    [w] in any case, white space, the token [x], white space, [from] or [to]
    in any case, and anything after; [m] is the title without what comes
    after [from] or [to]. *)
Definition keywordTitle (w t m x : string) : Prop :=
  ∃ kw ws1 ws2 sep rest,
    t = kw +:+ ws1 +:+ x +:+ ws2 +:+ sep +:+ rest
    ∧ m = kw +:+ ws1 +:+ x +:+ ws2 +:+ sep
    ∧ ToLower kw = w ∧ isGap ws1 ∧ isToken x ∧ isGap ws2
    ∧ (ToLower sep = "from" ∨ ToLower sep = "to").


(** The class of [.] *)
Definition notNewline (c : ascii) : bool := negb (N_of_ascii c =? 10)%N.

(** A title of the shape the third expression describes: [chore] in any
    case, a stretch of the first line, and from there a title of the
    ["bump"] shape with the token [x]; [m] is the title up to the [from] or
    [to] of that shape. *)
Definition choreTitle (t m x : string) : Prop :=
  ∃ c mid tail m',
    t = c +:+ mid +:+ tail ∧ m = c +:+ mid +:+ m'
    ∧ ToLower c = "chore" ∧ allBytes notNewline mid = true
    ∧ keywordTitle "bump" tail m' x.

(** * Properties *)

(** ** Bytes and case *)

Section Bytes.

Lemma N_of_ascii_lt (c : ascii) : (N_of_ascii c < 256)%N.
Proof. apply N_ascii_bounded. Qed.

Lemma N_of_ascii_inj (a b : ascii) : N_of_ascii a = N_of_ascii b → a = b.
Proof.
  intros H. rewrite <- (ascii_N_embedding a), <- (ascii_N_embedding b).
  now rewrite H.
Qed.

Lemma N_of_toLowerByte (c : ascii) :
  N_of_ascii (toLowerByte c)
  = if isUpper c then (N_of_ascii c + 32)%N else N_of_ascii c.
Proof.
  unfold toLowerByte. destruct (isUpper c) eqn:E; [|reflexivity].
  apply N_ascii_embedding. unfold isUpper in E. lia.
Qed.

Lemma isUpper_toLowerByte (c : ascii) : isUpper (toLowerByte c) = false.
Proof.
  unfold isUpper at 1. rewrite N_of_toLowerByte.
  destruct (isUpper c) eqn:E; unfold isUpper in E; lia.
Qed.

Lemma toLowerByte_idemp (c : ascii) : toLowerByte (toLowerByte c) = toLowerByte c.
Proof. unfold toLowerByte at 1. now rewrite isUpper_toLowerByte. Qed.

Lemma foldEq_toLowerByte (a b : ascii) :
  foldEq a b = Ascii.eqb (toLowerByte a) (toLowerByte b).
Proof.
  unfold foldEq.
  destruct (Ascii.eqb_spec b a) as [->|Hne].
  - now rewrite Ascii.eqb_refl.
  - assert (Hn : N_of_ascii b ≠ N_of_ascii a)
      by (intros H; apply Hne; now apply N_of_ascii_inj).
    destruct (Ascii.eqb_spec (toLowerByte a) (toLowerByte b)) as [He|He].
    + apply (f_equal N_of_ascii) in He. rewrite !N_of_toLowerByte in He.
      destruct (isUpper a) eqn:Ea, (isUpper b) eqn:Eb;
        destruct (N_of_ascii b <? N_of_ascii a)%N eqn:Hlt;
        rewrite ?Ea, ?Eb; unfold isUpper in *; lia.
    + assert (Hm : N_of_ascii (toLowerByte a) ≠ N_of_ascii (toLowerByte b))
        by (intros H; apply He; now apply N_of_ascii_inj).
      rewrite !N_of_toLowerByte in Hm.
      destruct (isUpper a) eqn:Ea, (isUpper b) eqn:Eb;
        destruct (N_of_ascii b <? N_of_ascii a)%N eqn:Hlt;
        rewrite ?Ea, ?Eb; unfold isUpper in *; lia.
Qed.

Lemma toLowerByte_fixed (c x : ascii) :
  (N_of_ascii c < 65 ∨ 122 < N_of_ascii c)%N →
  toLowerByte x = c → x = c.
Proof.
  intros Hr H. apply N_of_ascii_inj.
  apply (f_equal N_of_ascii) in H. rewrite N_of_toLowerByte in H.
  destruct (isUpper x) eqn:E; unfold isUpper in *; lia.
Qed.

End Bytes.

(** ** Strings *)

Section Strings.

Implicit Types s t p e x v : string.

Lemma append_cons c s t : String c s +:+ t = String c (s +:+ t).
Proof. reflexivity. Qed.

Lemma append_nil_l s : "" +:+ s = s.
Proof. reflexivity. Qed.

Lemma append_nil_r s : s +:+ "" = s.
Proof.
  induction s as [|c s IH]; [reflexivity|]. now rewrite append_cons, IH.
Qed.

Lemma append_assoc s t v : (s +:+ t) +:+ v = s +:+ (t +:+ v).
Proof.
  induction s as [|c s IH]; [reflexivity|]. now rewrite !append_cons, IH.
Qed.

Lemma length_append s t :
  String.length (s +:+ t) = (String.length s + String.length t)%nat.
Proof.
  induction s as [|c s IH]; [reflexivity|].
  rewrite append_cons. simpl. now rewrite IH.
Qed.

Lemma substring_append_l s t :
  substring 0 (String.length s) (s +:+ t) = s.
Proof.
  induction s as [|c s IH].
  - rewrite append_nil_l. now destruct t.
  - rewrite append_cons. simpl. now rewrite IH.
Qed.

Lemma ToLower_idemp s : ToLower (ToLower s) = ToLower s.
Proof.
  induction s as [|c s IH]; simpl; [reflexivity|].
  now rewrite toLowerByte_idemp, IH.
Qed.

Lemma ToLower_append s t : ToLower (s +:+ t) = ToLower s +:+ ToLower t.
Proof.
  induction s as [|c s IH]; [reflexivity|].
  rewrite append_cons. simpl. now rewrite append_cons, IH.
Qed.

Lemma ToLower_length s : String.length (ToLower s) = String.length s.
Proof. induction s as [|c s IH]; simpl; [reflexivity | now rewrite IH]. Qed.

Lemma ToLower_empty s : ToLower s = "" ↔ s = "".
Proof. destruct s; simpl; split; intros H; congruence. Qed.

(** On bytes, [EqualFold] compares the lower-cased strings. *)
Lemma EqualFold_ToLower s t :
  EqualFold s t = String.eqb (ToLower s) (ToLower t).
Proof.
  revert t. induction s as [|a s IH]; intros [|b t]; simpl; try reflexivity.
  now rewrite foldEq_toLowerByte, IH.
Qed.

Lemma EqualFold_true s t : EqualFold s t = true ↔ ToLower s = ToLower t.
Proof. rewrite EqualFold_ToLower. apply String.eqb_eq. Qed.

Lemma EqualFold_empty_l t : EqualFold "" t = true ↔ t = "".
Proof. destruct t; simpl; split; intros H; congruence. Qed.

Lemma HasPrefix_append p s : HasPrefix (p +:+ s) p = true.
Proof.
  induction p as [|c p IH]; [reflexivity|].
  rewrite append_cons. simpl. now rewrite Ascii.eqb_refl, IH.
Qed.

Lemma HasPrefix_true s p : HasPrefix s p = true ↔ ∃ t, s = p +:+ t.
Proof.
  split.
  - revert s. induction p as [|c p IH]; intros s H; simpl in *.
    + now exists s.
    + destruct s as [|a s]; [discriminate|].
      apply andb_true_iff in H as [Ha Hp].
      apply Ascii.eqb_eq in Ha as ->.
      destruct (IH _ Hp) as [t ->]. now exists t.
  - intros [t ->]. apply HasPrefix_append.
Qed.

Lemma HasPrefix_refl s : HasPrefix s s = true.
Proof. rewrite <- (append_nil_r s) at 1. apply HasPrefix_append. Qed.

Lemma Index_lower_bound s t : -1 ≤ Index s t.
Proof.
  induction s as [|c s IH]; simpl; destruct (HasPrefix _ t); try lia.
  destruct (Index s t <? 0) eqn:E; lia.
Qed.

Lemma Contains_refl s : Contains s s = true.
Proof.
  unfold Contains. destruct s as [|c s]; [reflexivity|].
  cbn [Index]. now rewrite HasPrefix_refl.
Qed.

Lemma Contains_cons c s t :
  Contains (String c s) t = HasPrefix (String c s) t || Contains s t.
Proof.
  unfold Contains. cbn [Index]. destruct (HasPrefix (String c s) t); [reflexivity|].
  pose proof (Index_lower_bound s t). simpl. destruct (Index s t <? 0) eqn:E; lia.
Qed.

Lemma Contains_empty_l t : Contains "" t = true ↔ t = "".
Proof.
  destruct t; split; intros H; try reflexivity; discriminate.
Qed.

(** [Contains] is the search for a factor. *)
Lemma Contains_true s t : Contains s t = true ↔ ∃ x v, s = x +:+ t +:+ v.
Proof.
  split.
  - induction s as [|c s IH].
    + intros H. apply Contains_empty_l in H as ->. now exists "", "".
    + rewrite Contains_cons. intros [H|H]%orb_true_iff.
      * apply HasPrefix_true in H as [v ->]. now exists "", v.
      * destruct (IH H) as (x & v & ->). now exists (String c x), v.
  - intros (x & v & ->). induction x as [|c x IH].
    + rewrite append_nil_l. destruct (t +:+ v) eqn:E.
      * destruct t; [reflexivity | discriminate].
      * rewrite Contains_cons, <- E, HasPrefix_append. reflexivity.
    + rewrite append_cons, Contains_cons, IH. apply orb_true_r.
Qed.

(** *** Searching for one byte *)

Lemma Contains_byte_cons a c s :
  Contains (String a s) (String c "") = Ascii.eqb a c || Contains s (String c "").
Proof. rewrite Contains_cons. simpl. now rewrite andb_true_r. Qed.

Lemma Index_byte_cons a c s :
  Index (String a s) (String c "")
  = if Ascii.eqb a c then 0
    else if Index s (String c "") <? 0 then -1 else Index s (String c "") + 1.
Proof. cbn [Index HasPrefix]. now rewrite andb_true_r. Qed.

Lemma caseless_eqb c a :
  caseless c → Ascii.eqb (toLowerByte a) c = Ascii.eqb a c.
Proof.
  intros Hc. destruct (Ascii.eqb_spec a c) as [->|Hne].
  - apply Ascii.eqb_eq, N_of_ascii_inj. rewrite N_of_toLowerByte.
    destruct (isUpper c) eqn:E; [|reflexivity].
    unfold caseless, isUpper in *. lia.
  - apply Ascii.eqb_neq. intros H. apply Hne.
    now apply toLowerByte_fixed.
Qed.

Lemma Contains_byte_ToLower c s :
  caseless c →
  Contains (ToLower s) (String c "") = Contains s (String c "").
Proof.
  intros Hc. induction s as [|a s IH]; [reflexivity|].
  simpl ToLower. now rewrite !Contains_byte_cons, IH, caseless_eqb.
Qed.

Lemma Index_byte_first c x v :
  Contains x (String c "") = false →
  Index (x +:+ String c v) (String c "") = Z.of_nat (String.length x).
Proof.
  induction x as [|a x IH]; intros H.
  - rewrite append_nil_l, Index_byte_cons. now rewrite Ascii.eqb_refl.
  - rewrite Contains_byte_cons in H. apply orb_false_iff in H as [Ha Hx].
    rewrite append_cons, Index_byte_cons, Ha, (IH Hx).
    simpl String.length. destruct (_ <? 0) eqn:E; lia.
Qed.

Lemma Index_byte_found c s :
  0 ≤ Index s (String c "") →
  ∃ x v, s = x +:+ String c v
         ∧ Index s (String c "") = Z.of_nat (String.length x)
         ∧ Contains x (String c "") = false.
Proof.
  induction s as [|a s IH]; intros H.
  - cbv in H. now destruct H.
  - rewrite Index_byte_cons in H |- *.
    destruct (Ascii.eqb_spec a c) as [->|Hne].
    + now exists "", s.
    + destruct (Index s (String c "") <? 0) eqn:E; [lia|].
      destruct IH as (x & v & -> & Hi & Hx); [lia|].
      exists (String a x), v. repeat split.
      * rewrite Hi. simpl String.length. lia.
      * rewrite Contains_byte_cons, Hx.
        now apply Ascii.eqb_neq in Hne as ->.
Qed.

Lemma sliceTo_append x v : sliceTo (x +:+ v) (Z.of_nat (String.length x)) = x.
Proof. unfold sliceTo. rewrite Nat2Z.id. apply substring_append_l. Qed.

Lemma ToLower_split_byte c p a b :
  caseless c → ToLower p = a +:+ String c b →
  ∃ x v, p = x +:+ String c v ∧ ToLower x = a ∧ ToLower v = b.
Proof.
  intros Hc. revert p. induction a as [|d a IH]; intros [|h p] H;
    try discriminate.
  - rewrite append_nil_l in H. simpl in H. injection H as Hh Hp.
    apply toLowerByte_fixed in Hh as ->; [|exact Hc]. now exists "", p.
  - rewrite append_cons in H. simpl in H. injection H as Hh Hp.
    destruct (IH _ Hp) as (x & v & -> & Hx & Hv).
    exists (String h x), v. repeat split; [|assumption].
    simpl. now rewrite Hh, Hx.
Qed.

End Strings.

(** ** The deny matcher *)

Section DenyMatcher.

Implicit Types p o e d x v : string.

Lemma isDenied_single p o e : isDenied p o [e] [] = packageDenied p e.
Proof. unfold isDenied. simpl. now destruct (packageDenied p e). Qed.

Lemma isDenied_true p o (pkgs orgs : list string) :
  isDenied p o pkgs orgs = true
  ↔ (∃ e, e ∈ pkgs ∧ packageDenied p e = true)
    ∨ (∃ d, d ∈ orgs ∧ EqualFold o d = true).
Proof.
  unfold isDenied.
  destruct (existsb (packageDenied p) pkgs) eqn:Ep;
    [|destruct (existsb (EqualFold o) orgs) eqn:Eo].
  - apply existsb_exists in Ep as (e & He & Hp).
    split; [|reflexivity]. intros _. left. exists e.
    split; [now apply list_elem_of_In | assumption].
  - apply existsb_exists in Eo as (d & Hd & Ho).
    split; [|reflexivity]. intros _. right. exists d.
    split; [now apply list_elem_of_In | assumption].
  - split; [discriminate|].
    intros [(e & He & Hp)|(d & Hd & Ho)]; exfalso.
    + apply not_true_iff_false in Ep. apply Ep, existsb_exists.
      exists e. split; [now apply list_elem_of_In | assumption].
    + apply not_true_iff_false in Eo. apply Eo, existsb_exists.
      exists d. split; [now apply list_elem_of_In | assumption].
Qed.

Lemma caseless_at : caseless "@".
Proof. unfold caseless. simpl. lia. Qed.

(** An entry with ["@"] and no ["*"]: equality up to case, or containment
    of the lower-cased entry; the first implies the second. *)
Lemma packageDenied_versioned p e :
  Contains e "*" = false → Contains e "@" = true →
  packageDenied p e = Contains (ToLower p) (ToLower e).
Proof.
  intros Hs Ha. unfold packageDenied. rewrite Hs, Ha.
  destruct (EqualFold p e) eqn:E; [|reflexivity].
  apply EqualFold_true in E. rewrite E. symmetry. apply Contains_refl.
Qed.

(** An entry with neither ["*"] nor ["@"]. *)
Lemma packageDenied_plain p e :
  Contains e "*" = false → Contains e "@" = false →
  packageDenied p e = true
  ↔ EqualFold p e = true
    ∨ ∃ x v, x ≠ "" ∧ p = x +:+ "@" +:+ v ∧ EqualFold x e = true.
Proof.
  intros Hs Ha. unfold packageDenied. rewrite Hs, Ha. split.
  - destruct (EqualFold p e) eqn:E; [now left|].
    destruct (String.eqb_spec (ToLower p) (ToLower e)) as [Hl|Hl].
    { apply EqualFold_true in Hl. congruence. }
    destruct (0 <? Index (ToLower p) "@") eqn:Ei; [|discriminate].
    intros Hb%String.eqb_eq. right.
    destruct (Index_byte_found "@" (ToLower p)) as (a & b & Hp & Hi & Hx);
      [lia|].
    assert (Hlen : (0 < String.length a)%nat) by lia.
    rewrite Hi, Hp, sliceTo_append in Hb.
    apply ToLower_split_byte in Hp as (x & v & -> & Hxa & Hv);
      [|exact caseless_at].
    exists x, v. repeat split.
    + intros ->. simpl in Hxa. rewrite <- Hxa in Hlen.
      simpl in Hlen. lia.
    + apply EqualFold_true. congruence.
  - intros [E|(x & v & Hx & -> & E)]; [now rewrite E|].
    apply EqualFold_true in E.
    destruct (EqualFold _ e); [reflexivity|].
    destruct (String.eqb _ (ToLower e)); [reflexivity|].
    assert (Hc : Contains (ToLower x) "@" = false).
    { rewrite E, Contains_byte_ToLower; [assumption | exact caseless_at]. }
    rewrite ToLower_append.
    change (ToLower ("@" +:+ v)) with (String "@" (ToLower v)).
    assert (Hpos : (0 <? Z.of_nat (String.length (ToLower x))) = true)
      by (destruct x; [congruence | reflexivity]).
    rewrite (Index_byte_first _ _ _ Hc), sliceTo_append, Hpos, E.
    apply String.eqb_refl.
Qed.

(** An entry with ["*"]: only the four forms, read on the lower-cased
    entry, can match. *)
Lemma packageDenied_wildcard p e :
  Contains e "*" = true →
  packageDenied p e = true
  ↔ (ToLower e = "*alpha*" ∧ Contains (ToLower p) "alpha" = true)
    ∨ (ToLower e = "*beta*" ∧ Contains (ToLower p) "beta" = true)
    ∨ (ToLower e = "*rc*" ∧ Contains (ToLower p) "rc" = true)
    ∨ (ToLower e = "*/v0" ∧ HasSuffix (ToLower p) "/v0" = true).
Proof.
  intros Hs. unfold packageDenied. rewrite Hs. split.
  - repeat match goal with
      | |- context [String.eqb (ToLower e) ?w && ?c] =>
          destruct (String.eqb_spec (ToLower e) w) as [->|?];
          [destruct c eqn:?|]; simpl
      end; try discriminate; tauto.
  - intros [[-> ->]|[[-> ->]|[[-> ->]|[-> ->]]]]; reflexivity.
Qed.

End DenyMatcher.

(** ** The regular expressions *)

Section Matching.

Context {R : Type}.
Implicit Types (s x rest cap : string) (k : string → string → option R).

Lemma run_word w kw s cap k :
  w ≠ "" → ToLower kw = w → run (word w) (kw +:+ s) cap k = k s cap.
Proof.
  revert kw. induction w as [|c w IH]; intros kw Hw Hkw; [congruence|].
  destruct kw as [|a kw]; [discriminate|].
  simpl in Hkw. injection Hkw as Ha Hkw. rewrite append_cons.
  destruct w as [|c' w].
  - apply ToLower_empty in Hkw as ->. simpl.
    rewrite Ha, Ascii.eqb_refl. reflexivity.
  - change (word (String c (String c' w)))
      with (Cat (letter c) (word (String c' w))).
    cbn [run letter]. rewrite Ha, Ascii.eqb_refl.
    apply IH; [discriminate | assumption].
Qed.

Lemma run_Byte_cons f a s cap k :
  run (Byte f) (String a s) cap k = if f a then k s cap else None.
Proof. reflexivity. Qed.

Lemma run_Byte_nil f cap k : run (Byte f) "" cap k = None.
Proof. reflexivity. Qed.

Lemma starLoop_S step k fuel s cap :
  starLoop step k (S fuel) s cap
  = match
      step s cap
        (λ s1 cap1,
           if (String.length s1 <? String.length s)%nat
           then starLoop step k fuel s1 cap1 else None)
    with
    | Some x => Some x
    | None => k s cap
    end.
Proof. reflexivity. Qed.

(** A greedy repetition of a class takes the whole run of bytes of the
    class, if the rest of the expression matches after it. *)
Lemma starLoop_class f x rest cap k r fuel :
  allBytes f x = true → headIs f rest = false →
  (String.length x ≤ fuel)%nat → k rest cap = Some r →
  starLoop (run (Byte f)) k fuel (x +:+ rest) cap = Some r.
Proof.
  intros Hx Hrest Hfuel Hk. revert fuel Hfuel.
  induction x as [|a x IH]; intros fuel Hfuel.
  - rewrite append_nil_l. destruct fuel as [|fuel]; [exact Hk|].
    rewrite starLoop_S.
    destruct rest as [|c rest]; [rewrite run_Byte_nil; exact Hk|].
    simpl in Hrest. rewrite run_Byte_cons, Hrest. exact Hk.
  - simpl in Hx. apply andb_true_iff in Hx as [Ha Hx].
    destruct fuel as [|fuel]; [simpl in Hfuel; lia|].
    rewrite append_cons, starLoop_S, run_Byte_cons, Ha.
    assert (Hlt : (String.length (x +:+ rest)
                   <? String.length (String a (x +:+ rest)))%nat = true)
      by (apply Nat.ltb_lt; simpl; lia).
    rewrite Hlt, (IH Hx fuel); [reflexivity|].
    simpl in Hfuel. lia.
Qed.

Lemma run_plus_class f x rest cap k r :
  x ≠ "" → allBytes f x = true → headIs f rest = false →
  k rest cap = Some r →
  run (Plus (Byte f)) (x +:+ rest) cap k = Some r.
Proof.
  intros Hne Hx Hrest Hk. destruct x as [|a x]; [congruence|].
  simpl in Hx. apply andb_true_iff in Hx as [Ha Hx].
  rewrite append_cons. unfold Plus.
  change (run (Cat (Byte f) (Star (Byte f))) (String a (x +:+ rest)) cap k)
    with (run (Byte f) (String a (x +:+ rest)) cap
            (λ s1 cap1, starLoop (run (Byte f)) k (String.length s1) s1 cap1)).
  rewrite run_Byte_cons, Ha.
  apply starLoop_class; try assumption.
  rewrite length_append. lia.
Qed.

Lemma run_group_plus_class f x rest cap k r :
  x ≠ "" → allBytes f x = true → headIs f rest = false →
  k rest x = Some r →
  run (Group (Plus (Byte f))) (x +:+ rest) cap k = Some r.
Proof.
  intros Hne Hx Hrest Hk.
  change (run (Group (Plus (Byte f))) (x +:+ rest) cap k)
    with (run (Plus (Byte f)) (x +:+ rest) cap
            (λ s1 _, k s1 (substring 0 (String.length (x +:+ rest)
                                        - String.length s1) (x +:+ rest)))).
  apply (run_plus_class f x rest cap _ r); try assumption.
  rewrite length_append, Nat.add_sub, substring_append_l. exact Hk.
Qed.

End Matching.

(** ** The title parser *)

Section TitleParser.

Implicit Types title kw X A B rest : string.

Lemma headIs_class_append f x rest :
  x ≠ "" → allBytes f x = true → headIs (λ c, negb (f c)) (x +:+ rest) = false.
Proof.
  intros Hne Hx. destruct x as [|a x]; [congruence|].
  simpl in Hx. apply andb_true_iff in Hx as [Ha _].
  rewrite append_cons. simpl. now rewrite Ha.
Qed.

Lemma headIs_notReSpace_append x rest :
  x ≠ "" → allBytes notReSpace x = true → headIs isReSpace (x +:+ rest) = false.
Proof.
  intros Hne Hx. destruct x as [|a x]; [congruence|].
  simpl in Hx. apply andb_true_iff in Hx as [Ha _].
  rewrite append_cons. simpl. unfold notReSpace in Ha.
  now apply negb_true_iff in Ha.
Qed.

Lemma letter_not_space (a c : ascii) :
  toLowerByte a = c → (97 ≤ N_of_ascii c)%N → isReSpace a = false.
Proof.
  intros H Hc. apply (f_equal N_of_ascii) in H.
  rewrite N_of_toLowerByte in H.
  destruct (isUpper a) eqn:E; unfold isUpper, isReSpace in *; lia.
Qed.

(** A title made of a keyword, white space, a token without white space,
    white space and [from]: the expression for the keyword matches, and
    its group is the token. *)
Lemma FindStringSubmatch_keyword w kw ws1 X ws2 sep rest :
  w ≠ "" → ToLower kw = w →
  ws1 ≠ "" → allBytes isReSpace ws1 = true →
  X ≠ "" → allBytes notReSpace X = true →
  ws2 ≠ "" → allBytes isReSpace ws2 = true →
  ToLower sep = "from" →
  ∃ m, FindStringSubmatch (Cat (word w) packageTail)
         (kw +:+ ws1 +:+ X +:+ ws2 +:+ sep +:+ rest) = [m; X].
Proof.
  intros Hw Hkw Hws1 Hs1 HX HnX Hws2 Hs2 Hsep.
  unfold FindStringSubmatch.
  set (title := kw +:+ ws1 +:+ X +:+ ws2 +:+ sep +:+ rest).
  set (k := λ s1 cap : string,
         Some [substring 0 (String.length title - String.length s1) title; cap]).
  exists (substring 0 (String.length title - String.length rest) title).
  assert (Hrun : run (Cat (word w) packageTail) title "" k = k rest X);
    [|now rewrite Hrun].
  unfold title at 1.
  change (run (Cat (word w) packageTail) ?s "" k)
    with (run (word w) s "" (λ s1 cap1, run packageTail s1 cap1 k)).
  rewrite (run_word w kw _ _ _ Hw Hkw).
  unfold packageTail.
  change (run (Cat (Plus space) ?r2) ?s "" k)
    with (run (Plus space) s "" (λ s1 cap1, run r2 s1 cap1 k)).
  apply run_plus_class; [assumption | assumption
                        | now apply headIs_notReSpace_append |].
  change (run (Cat (Group (Plus nonSpace)) ?r3) ?s "" k)
    with (run (Group (Plus nonSpace)) s ""
            (λ s1 cap1, run r3 s1 cap1 k)).
  apply run_group_plus_class;
    [assumption | assumption | now apply headIs_class_append |].
  change (run (Cat (Plus space) ?r4) ?s X k)
    with (run (Plus space) s X (λ s1 cap1, run r4 s1 cap1 k)).
  apply run_plus_class; [assumption | assumption | |].
  - destruct sep as [|a sep]; [discriminate|].
    rewrite append_cons. simpl. simpl in Hsep. injection Hsep as Ha _.
    apply (letter_not_space _ _ Ha). simpl. lia.
  - change (run (Alt (word "from") (word "to")) ?s X k)
      with (match run (word "from") s X k with
            | Some x => Some x
            | None => run (word "to") s X k
            end).
    rewrite (run_word "from" sep rest X k); [reflexivity | discriminate | assumption].
Qed.

Lemma matchPatterns_bump title m x :
  FindStringSubmatch bumpPattern title = [m; x] →
  matchPatterns patterns title = x.
Proof. intros H. unfold patterns. cbn [matchPatterns]. now rewrite H. Qed.

Lemma extractPackageName_patterns title :
  matchPatterns patterns title ≠ "" →
  extractPackageName title = matchPatterns patterns title.
Proof.
  intros H. unfold extractPackageName.
  now destruct (String.eqb_spec (matchPatterns patterns title) "").
Qed.

End TitleParser.

(** The examples of the comment of [extractPackageInfo] and of the README *)
Example extractPackageInfo_go_module :
  extractPackageInfo "Bump github.com/datadog/datadog-go from 1.0.0 to 2.0.0"
  = ("github.com/datadog/datadog-go", "datadog").
Proof. reflexivity. Qed.

Example extractPackageInfo_scoped :
  extractPackageInfo "Bump @datadog/browser-rum from 4.0.0 to 5.0.0"
  = ("@datadog/browser-rum", "datadog").
Proof. reflexivity. Qed.

Example extractPackageInfo_update :
  extractPackageInfo "Update rails to 7.0.0" = ("rails", "").
Proof. reflexivity. Qed.

Example extractPackageInfo_golang_x :
  extractPackageInfo "Bump golang.org/x/net from 0.17.0 to 0.23.0"
  = ("golang.org/x/net", "").
Proof. reflexivity. Qed.

(** [.*] is greedy: the last ["bump"] of the line that the tail of the
    expression matches gives the package. *)
Example extractPackageInfo_chore :
  extractPackageInfo "chore(deps): bump a/x from 1 to 2, bump b/y from 3 to 4"
  = ("b/y", "y").
Proof. reflexivity. Qed.

Example extractPackageInfo_fallback :
  extractPackageInfo "build(deps): upgrade acme/tool" = ("acme/tool", "tool").
Proof. reflexivity. Qed.

(** ** The merge of the deny lists *)

Section Merge.

Implicit Types (item x y : string) (l slice result : list string)
  (seen : gmap string bool).

Lemma trimLeft_empty s : trimLeft s = "" ↔ blank s = true.
Proof.
  unfold blank. induction s as [|c s IH]; simpl; [tauto|].
  destruct (isSpace c); simpl; [exact IH|]. split; discriminate.
Qed.






Lemma removeDuplicatesLoop_result seen result slice :
  removeDuplicatesLoop seen result slice
  = result ++ removeDuplicatesLoop seen [] slice.
Proof.
  revert seen result. induction slice as [|item rest IH]; intros seen result.
  - simpl. now rewrite app_nil_r.
  - simpl. destruct (_ && _).
    + rewrite (IH _ (result ++ [item])), (IH _ [item]).
      now rewrite <- app_assoc.
    + apply IH.
Qed.

Lemma removeDuplicatesLoop_cons seen item rest :
  removeDuplicatesLoop seen [] (item :: rest)
  = if kept seen item
    then item :: removeDuplicatesLoop (<[normalized item := true]> seen) [] rest
    else removeDuplicatesLoop seen [] rest.
Proof.
  cbn [removeDuplicatesLoop]. fold (normalized item). fold (kept seen item).
  destruct (kept seen item); [|reflexivity].
  now rewrite removeDuplicatesLoop_result.
Qed.

(** Running the loop on its own result changes nothing. *)
Lemma removeDuplicatesLoop_idemp seen l :
  removeDuplicatesLoop seen [] (removeDuplicatesLoop seen [] l)
  = removeDuplicatesLoop seen [] l.
Proof.
  revert seen. induction l as [|x l IH]; intros seen; [reflexivity|].
  rewrite removeDuplicatesLoop_cons. destruct (kept seen x) eqn:E.
  - now rewrite removeDuplicatesLoop_cons, E, IH.
  - apply IH.
Qed.

Lemma removeDuplicates_idemp l :
  removeDuplicates (removeDuplicates l) = removeDuplicates l.
Proof. apply removeDuplicatesLoop_idemp. Qed.

Lemma removeDuplicatesLoop_sublist seen l :
  sublist (removeDuplicatesLoop seen [] l) l.
Proof.
  revert seen. induction l as [|x l IH]; intros seen; [constructor|].
  rewrite removeDuplicatesLoop_cons. destruct (kept seen x).
  - apply sublist_skip, IH.
  - apply sublist_cons, IH.
Qed.





End Merge.

(** ** The enumeration of pull requests *)

Section Enumerator.

Context {error : Type} (g : GithubAPI error) (q : DependencyUpdateQuery).

Lemma collectPRs_filter (pulls : list PullRequest) (prs : list PRInfo) :
  collectPRs g q pulls prs
  = prs ++ (prInfo g q <$> List.filter isDependabot pulls).
Proof.
  revert prs. induction pulls as [|p pulls IH]; intros prs.
  - simpl. now rewrite app_nil_r.
  - cbn [collectPRs List.filter]. fold (isDependabot p).
    destruct (isDependabot p); [|apply IH].
    rewrite IH, fmap_cons, <- app_assoc. reflexivity.
Qed.

Lemma prInfo_fields (p : PullRequest) :
  let pkg := (extractPackageInfo (title p)).1 in
  let org := (extractPackageInfo (title p)).2 in
  let r := prInfo g q p in
  Number r = number p ∧ Title r = title p ∧ URL r = htmlURL p
  ∧ Skipped r = isDenied pkg org (DeniedPackages q) (DeniedOrgs q)
  ∧ SkipReason r = (if Skipped r then skipReason pkg org q else "")
  ∧ Status r = match getCombinedStatus g (Owner q) (Repo q) (headSHA p) with
               | inr state => state
               | inl _ => ""
               end.
Proof. unfold prInfo. destruct (extractPackageInfo (title p)). now simpl. Qed.

Lemma orgSkipReason_match (org : string) (orgs : list string) :
  orgSkipReason org orgs
  = if existsb (EqualFold org) orgs then "org '" +:+ org +:+ "' is denied"
    else "".
Proof.
  induction orgs as [|d orgs IH]; [reflexivity|].
  simpl. destruct (EqualFold org d); [reflexivity | exact IH].
Qed.

Lemma packageSkipReason_find (pkg : string) (pkgs : list string) :
  packageSkipReason pkg pkgs
  = match List.find (namesPackage pkg) pkgs with
    | Some e => "package '" +:+ e +:+ "' is denied"
    | None => ""
    end.
Proof.
  induction pkgs as [|d pkgs IH]; [reflexivity|].
  cbn [packageSkipReason List.find]. fold (namesPackage pkg d).
  destruct (namesPackage pkg d); [reflexivity | exact IH].
Qed.

End Enumerator.

(** * Main results *)




(** C2, as stated, fails on an entry written in upper case: ["*ALPHA*"] is
    none of the four literal forms, and it matches the package ["alpha"],
    because the entry is lower-cased before it is compared. *)
Lemma wildcard_case_counterexample :
  ¬ (∀ p e o : string,
       Contains e "*" = true →
       e ≠ "*alpha*" → e ≠ "*beta*" → e ≠ "*rc*" → e ≠ "*/v0" →
       isDenied p o [e] [] = false).
Proof.
  intros H.
  specialize (H "alpha" "*ALPHA*" "" eq_refl).
  vm_compute in H.
  assert (Hd : true = false) by (apply H; discriminate).
  discriminate.
Qed.

(** C2 (amended): an entry [e] that contains ["*"] matches a package [p] only
    through the four forms, read on the lower-cased entry: ["*alpha*"] when
    the lower-cased [p] contains ["alpha"], ["*beta*"] when it contains
    ["beta"], ["*rc*"] when it contains ["rc"], ["*/v0"] when it ends with
    ["/v0"].  Every other entry with ["*"] matches no package: the rules for
    equal and versioned entries are not tried on it. *)
Theorem entry_with_wildcard (p e o : string) :
  Contains e "*" = true →
  (isDenied p o [e] [] = true
   ↔ (ToLower e = "*alpha*" ∧ Contains (ToLower p) "alpha" = true)
     ∨ (ToLower e = "*beta*" ∧ Contains (ToLower p) "beta" = true)
     ∨ (ToLower e = "*rc*" ∧ Contains (ToLower p) "rc" = true)
     ∨ (ToLower e = "*/v0" ∧ HasSuffix (ToLower p) "/v0" = true))
  ∧ (ToLower e ≠ "*alpha*" → ToLower e ≠ "*beta*" → ToLower e ≠ "*rc*" →
     ToLower e ≠ "*/v0" → ∀ p', isDenied p' o [e] [] = false).
Proof.
  intros Hs. split.
  - rewrite isDenied_single. now apply packageDenied_wildcard.
  - intros H1 H2 H3 H4 p'. rewrite isDenied_single.
    apply not_true_iff_false. intros H.
    apply packageDenied_wildcard in H; [|assumption]. tauto.
Qed.

Lemma entry_with_wildcard_witness :
  Contains "*/V0" "*" = true
  ∧ isDenied "github.com/Acme/Lib/v0" "Acme" ["*/V0"] [] = true.
Proof.
  split; [reflexivity|].
  destruct (entry_with_wildcard "github.com/Acme/Lib/v0" "*/V0" "Acme" eq_refl)
    as [Hiff _].
  apply Hiff. right. right. right. split; reflexivity.
Defined.

(** C9, as stated, fails on an entry that also contains ["*"]: the entry
    ["@a*"] is contained in the package ["@a*"], and [isDenied] does not
    deny it, because an entry with ["*"] is read as a wildcard only. *)
Lemma at_entry_with_star_counterexample :
  ¬ (∀ p e o : string,
       Contains e "@" = true →
       Contains (ToLower p) (ToLower e) = true →
       isDenied p o [e] [] = true).
Proof.
  intros H.
  specialize (H "@a*" "@a*" "" eq_refl eq_refl).
  vm_compute in H. discriminate.
Qed.

(** C9 (amended): an entry [e] of the package deny list that contains ["@"]
    anywhere and no ["*"] denies every package whose lower-cased name
    contains the lower-cased [e]; so the entry ["@types/node"] denies the
    package ["@types/node-fetch"]. *)
Theorem at_entry_contained (p o e : string) (pkgs orgs : list string) :
  e ∈ pkgs →
  Contains e "@" = true → Contains e "*" = false →
  Contains (ToLower p) (ToLower e) = true →
  isDenied p o pkgs orgs = true.
Proof.
  intros He Ha Hs Hc. apply isDenied_true. left. exists e.
  split; [assumption|]. now rewrite packageDenied_versioned.
Qed.

Lemma at_entry_contained_witness :
  isDenied "@types/node-fetch" "types" ["left-pad"; "@types/node"] ["acme"]
  = true.
Proof.
  apply (at_entry_contained _ _ "@types/node").
  - apply list_elem_of_further, list_elem_of_here.
  - reflexivity.
  - reflexivity.
  - reflexivity.
Defined.

Lemma existsb_EqualFold (org : string) (orgs : list string) :
  existsb (EqualFold org) orgs = true ↔ ∃ d, d ∈ orgs ∧ EqualFold org d = true.
Proof.
  rewrite existsb_exists. split; intros (d & Hd & He); exists d;
    (split; [now apply list_elem_of_In | assumption]).
Qed.



(** C8: when the listing of the pull requests succeeds, one record is built
    for each pull request of Dependabot, in the order of the listing, and a
    failure of the status lookup for one of them changes nothing but the
    status of its record: number, title, link and deny verdict are set, the
    status is the empty string, and the records of the other pull requests
    are built all the same. *)
Theorem status_failure_keeps_record {error : Type} (g : GithubAPI error)
    (q : DependencyUpdateQuery) (pulls : list PullRequest) :
  pullRequestsList g (Owner q) (Repo q) = inr pulls →
  ∃ prs,
    GetDependabotPRsWithDenyList g q = inr prs
    ∧ length prs = length (List.filter isDependabot pulls)
    ∧ ∀ (i : nat) (p : PullRequest),
        List.filter isDependabot pulls !! i = Some p →
        (∃ err, getCombinedStatus g (Owner q) (Repo q) (headSHA p) = inl err) →
        ∃ r, prs !! i = Some r
             ∧ Number r = number p ∧ Title r = title p ∧ URL r = htmlURL p
             ∧ Status r = ""
             ∧ Skipped r
               = isDenied (extractPackageInfo (title p)).1
                   (extractPackageInfo (title p)).2
                   (DeniedPackages q) (DeniedOrgs q)
             ∧ SkipReason r
               = if Skipped r
                 then skipReason (extractPackageInfo (title p)).1
                        (extractPackageInfo (title p)).2 q
                 else "".
Proof.
  intros Hlist. unfold GetDependabotPRsWithDenyList. rewrite Hlist.
  rewrite collectPRs_filter, app_nil_l.
  eexists. split; [reflexivity|]. split; [apply length_fmap|].
  intros i p Hp [err Herr]. exists (prInfo g q p).
  split; [now rewrite list_lookup_fmap, Hp|].
  destruct (prInfo_fields g q p) as (Hn & Ht & Hu & Hs & Hr & Hst).
  rewrite Herr in Hst. repeat split; assumption.
Qed.

Lemma status_failure_keeps_record_witness :
  let g : GithubAPI string :=
    {| pullRequestsList := λ _ _,
         inr [ {| userID := dependabotUserID; number := 11;
                  title := "Bump golang.org/x/net from 0.17.0 to 0.23.0";
                  htmlURL := "https://example.test/pull/11"; headSHA := "s1" |};
               {| userID := 1; number := 12; title := "Fix typo";
                  htmlURL := "https://example.test/pull/12"; headSHA := "s2" |};
               {| userID := dependabotUserID; number := 13;
                  title := "Bump github.com/datadog/datadog-go from 5.0.0 to 5.1.0";
                  htmlURL := "https://example.test/pull/13"; headSHA := "s3" |} ];
       getCombinedStatus := λ _ _ sha,
         if String.eqb sha "s1" then inl "timeout" else inr "success" |} in
  let q := {| Owner := "acme"; Repo := "app";
              DeniedPackages := []; DeniedOrgs := ["datadog"] |} in
  GetDependabotPRsWithDenyList g q
  = inr [ {| Number := 11;
             Title := "Bump golang.org/x/net from 0.17.0 to 0.23.0";
             URL := "https://example.test/pull/11"; Status := "";
             Skipped := false; SkipReason := "" |};
          {| Number := 13;
             Title := "Bump github.com/datadog/datadog-go from 5.0.0 to 5.1.0";
             URL := "https://example.test/pull/13"; Status := "success";
             Skipped := true; SkipReason := "org 'datadog' is denied" |} ].
Proof.
  intros g q.
  destruct (status_failure_keeps_record g q _ eq_refl) as (prs & Hget & _ & _).
  rewrite Hget. injection Hget as <-. reflexivity.
Defined.

(** *** Titles without a package *)



Lemma packageDenied_empty (e : string) : e ≠ "" → packageDenied "" e = false.
Proof.
  intros He. destruct e as [|c e]; [congruence|].
  unfold packageDenied. cbn [ToLower EqualFold].
  destruct (Contains (String c e) "*").
  - change (Contains "" "alpha") with false.
    change (Contains "" "beta") with false.
    change (Contains "" "rc") with false.
    change (HasSuffix "" "/v0") with false.
    now rewrite !andb_false_r.
  - destruct (Contains (String c e) "@"); reflexivity.
Qed.





(** C5: for a non-empty token [X] without white space and any [A] and [B],
    the title ["Bump X from A to B"] gives the package name [X]; so does the
    title with the keyword in any case.  The expression for ["Bump"] is the
    first of the table: when it matches with a non-empty group, the group is
    the package name, whatever the other expressions and the fallback would
    give; and when the table gives a non-empty package name, the fallback
    does not run. *)
Theorem bump_title_package (X A B : string) :
  X ≠ "" → allBytes notReSpace X = true →
  (extractPackageInfo ("Bump " +:+ X +:+ " from " +:+ A +:+ " to " +:+ B)).1 = X
  ∧ (∀ kw, ToLower kw = "bump" →
       (extractPackageInfo (kw +:+ " " +:+ X +:+ " from " +:+ A +:+ " to " +:+ B)).1
       = X)
  ∧ (∀ t m x, FindStringSubmatch bumpPattern t = [m; x] → x ≠ "" →
       (extractPackageInfo t).1 = x)
  ∧ (∀ t, matchPatterns patterns t ≠ "" →
       (extractPackageInfo t).1 = matchPatterns patterns t).
Proof.
  intros HX Hns.
  assert (Hprio : ∀ t m x, FindStringSubmatch bumpPattern t = [m; x] → x ≠ "" →
                    (extractPackageInfo t).1 = x).
  { intros t m x Hm Hx. cbn [extractPackageInfo fst].
    rewrite extractPackageName_patterns; rewrite (matchPatterns_bump t m x Hm);
      [reflexivity | assumption]. }
  assert (Hkw : ∀ kw, ToLower kw = "bump" →
                  (extractPackageInfo
                     (kw +:+ " " +:+ X +:+ " from " +:+ A +:+ " to " +:+ B)).1 = X).
  { intros kw Hkw.
    destruct (FindStringSubmatch_keyword "bump" kw " " X " " "from"
                (" " +:+ A +:+ " to " +:+ B))
      as [m Hm]; try reflexivity; try discriminate; try assumption.
    apply (Hprio _ m); assumption. }
  split; [|split; [|split]].
  - apply (Hkw "Bump"). reflexivity.
  - exact Hkw.
  - exact Hprio.
  - intros t Ht. cbn [extractPackageInfo fst].
    now apply extractPackageName_patterns.
Qed.

Lemma bump_title_package_witness :
  extractPackageInfo
    "Bump github.com/datadog/datadog-go from 1.0.0 to 2.0.0"
  = ("github.com/datadog/datadog-go", "datadog").
Proof.
  destruct (bump_title_package "github.com/datadog/datadog-go" "1.0.0" "2.0.0")
    as [Hpkg _]; [discriminate | reflexivity |].
  change ("Bump " +:+ "github.com/datadog/datadog-go" +:+ " from " +:+ "1.0.0"
          +:+ " to " +:+ "2.0.0")
    with "Bump github.com/datadog/datadog-go from 1.0.0 to 2.0.0" in Hpkg.
  unfold extractPackageInfo in *. cbn [fst] in Hpkg. rewrite Hpkg.
  reflexivity.
Defined.

(** *** The organisation of a package name *)






(** C7: merging again the lists that [resolve] returned, with an empty
    override, returns them unchanged. *)
Theorem resolve_idempotent (global repoOverride : DenyPolicy) :
  resolve (resolve global repoOverride) emptyPolicy
  = resolve global repoOverride.
Proof.
  unfold resolve. cbn [denied_packages denied_orgs emptyPolicy].
  now rewrite !app_nil_r, !removeDuplicates_idemp.
Qed.



(** * Further properties *)

(** ** What the expressions match *)

Lemma run_Star {R : Type} (r : re) (s cap : string)
    (k : string → string → option R) :
  run (Star r) s cap k = starLoop (run r) k (String.length s) s cap.
Proof. reflexivity. Qed.

Lemma run_Cat {R : Type} (r1 r2 : re) (s cap : string)
    (k : string → string → option R) :
  run (Cat r1 r2) s cap k = run r1 s cap (λ s1 cap1, run r2 s1 cap1 k).
Proof. reflexivity. Qed.

Lemma run_Group {R : Type} (r : re) (s cap : string)
    (k : string → string → option R) :
  run (Group r) s cap k
  = run r s cap
      (λ s1 _, k s1 (substring 0 (String.length s - String.length s1) s)).
Proof. reflexivity. Qed.

(** A successful search went through the continuation, after a text the
    expression matches; without a group the capture is left as it was. *)
Lemma run_sound (r : re) :
  ∀ (R : Type) (s cap : string) (k : string → string → option R) (x : R),
    run r s cap k = Some x →
    ∃ m s1 cap1,
      s = m +:+ s1 ∧ Matches r m ∧ k s1 cap1 = Some x
      ∧ (hasGroup r = false → cap1 = cap).
Proof.
  induction r as [cls|r1 IH1 r2 IH2|r1 IH1 r2 IH2|r IH|r IH];
    intros R s cap k x Hrun.
  - destruct s as [|c s]; [discriminate|]. rewrite run_Byte_cons in Hrun.
    destruct (cls c) eqn:Hc; [|discriminate].
    exists (String c ""), s, cap. repeat split; try assumption.
    now constructor.
  - rewrite run_Cat in Hrun.
    apply IH1 in Hrun as (m1 & s1 & cap1 & -> & Hm1 & Hrun & Hc1).
    apply IH2 in Hrun as (m2 & s2 & cap2 & -> & Hm2 & Hk & Hc2).
    exists (m1 +:+ m2), s2, cap2. repeat split.
    + now rewrite append_assoc.
    + now constructor.
    + assumption.
    + cbn [hasGroup]. intros [H1 H2]%orb_false_iff.
      rewrite (Hc2 H2). now apply Hc1.
  - cbn [run] in Hrun. destruct (run r1 s cap k) eqn:E1.
    + injection Hrun as ->.
      apply IH1 in E1 as (m & s1 & cap1 & -> & Hm & Hk & Hc).
      exists m, s1, cap1. repeat split; try assumption.
      * now apply Matches_Alt_l.
      * cbn [hasGroup]. intros [H1 _]%orb_false_iff. now apply Hc.
    + apply IH2 in Hrun as (m & s1 & cap1 & -> & Hm & Hk & Hc).
      exists m, s1, cap1. repeat split; try assumption.
      * now apply Matches_Alt_r.
      * cbn [hasGroup]. intros [_ H2]%orb_false_iff. now apply Hc.
  - rewrite run_Star in Hrun. revert Hrun.
    generalize (String.length s) as fuel. intros fuel. revert s cap.
    induction fuel as [|fuel IHf]; intros s cap Hrun.
    + exists "", s, cap. repeat split; [constructor | exact Hrun].
    + rewrite starLoop_S in Hrun.
      destruct (run r s cap _) eqn:E.
      * injection Hrun as ->.
        apply IH in E as (m1 & s1 & cap1 & -> & Hm1 & Hk & Hc1).
        destruct (_ <? _)%nat; [|discriminate].
        apply IHf in Hk as (m2 & s2 & cap2 & -> & Hm2 & Hk & Hc2).
        exists (m1 +:+ m2), s2, cap2. repeat split.
        -- now rewrite append_assoc.
        -- now constructor.
        -- assumption.
        -- cbn [hasGroup] in *. intros H. rewrite (Hc2 H). now apply Hc1.
      * exists "", s, cap. repeat split; [constructor | exact Hrun].
  - rewrite run_Group in Hrun.
    apply IH in Hrun as (m & s1 & cap1 & -> & Hm & Hk & _).
    exists m, s1,
      (substring 0 (String.length (m +:+ s1) - String.length s1) (m +:+ s1)).
    split; [reflexivity|]. split; [now constructor|].
    split; [exact Hk | discriminate].
Qed.

(** The capture of a group is the text its body matched. *)
Lemma run_Group_capture {R : Type} (r : re) (s cap : string)
    (k : string → string → option R) (x : R) :
  run (Group r) s cap k = Some x →
  ∃ m s1, s = m +:+ s1 ∧ Matches r m ∧ k s1 m = Some x.
Proof.
  rewrite run_Group. intros Hrun.
  apply run_sound in Hrun as (m & s1 & cap1 & -> & Hm & Hk & _).
  rewrite length_append, Nat.add_sub, substring_append_l in Hk.
  now exists m, s1.
Qed.

Lemma Matches_Byte_inv (f : ascii → bool) (m : string) :
  Matches (Byte f) m → ∃ c, m = String c "" ∧ f c = true.
Proof. inversion 1; subst. now exists c. Qed.

Lemma allBytes_append (f : ascii → bool) (s t : string) :
  allBytes f (s +:+ t) = allBytes f s && allBytes f t.
Proof.
  induction s as [|c s IH]; [reflexivity|].
  rewrite append_cons. simpl. now rewrite IH, andb_assoc.
Qed.

Lemma Matches_Star_class (f : ascii → bool) (m : string) :
  Matches (Star (Byte f)) m → allBytes f m = true.
Proof.
  intros H. remember (Star (Byte f)) as r eqn:Hr.
  induction H as [| | | | |r0 m1 m2 H1 _ H2 IH2|]; try discriminate.
  - reflexivity.
  - injection Hr as ->. apply Matches_Byte_inv in H1 as (c & -> & Hc).
    rewrite allBytes_append. simpl. rewrite Hc. now apply IH2.
Qed.

Lemma Matches_Plus_class (f : ascii → bool) (m : string) :
  Matches (Plus (Byte f)) m → m ≠ "" ∧ allBytes f m = true.
Proof.
  unfold Plus. inversion 1 as [|r1 r2 m1 m2 H1 H2| | | | |]; subst.
  apply Matches_Byte_inv in H1 as (c & -> & Hc).
  apply Matches_Star_class in H2. split; [discriminate|].
  rewrite allBytes_append. simpl. now rewrite Hc.
Qed.

Lemma Matches_letter (c : ascii) (m : string) :
  Matches (letter c) m → ToLower m = String c "".
Proof.
  intros H. apply Matches_Byte_inv in H as (a & -> & Ha).
  apply Ascii.eqb_eq in Ha. simpl. now rewrite Ha.
Qed.

Lemma Matches_word (w m : string) :
  w ≠ "" → Matches (word w) m → ToLower m = w.
Proof.
  revert m. induction w as [|c w IH]; intros m Hw H; [congruence|].
  destruct w as [|c' w]; [now apply Matches_letter|].
  change (word (String c (String c' w)))
    with (Cat (letter c) (word (String c' w))) in H.
  inversion H as [|r1 r2 m1 m2 H1 H2| | | | |]; subst.
  apply Matches_letter in H1. apply IH in H2; [|discriminate].
  rewrite ToLower_append, H1, H2. reflexivity.
Qed.

(** The tail of the three expressions: a successful search has read a gap,
    a token, a gap and [from] or [to], and hands the token on as the text of
    the group. *)
Lemma run_packageTail_sound {R : Type} (s cap : string)
    (k : string → string → option R) (x : R) :
  run packageTail s cap k = Some x →
  ∃ ws1 tok ws2 sep s1,
    s = ws1 +:+ tok +:+ ws2 +:+ sep +:+ s1
    ∧ isGap ws1 ∧ isToken tok ∧ isGap ws2
    ∧ (ToLower sep = "from" ∨ ToLower sep = "to")
    ∧ k s1 tok = Some x.
Proof.
  unfold packageTail. rewrite run_Cat. intros Hrun.
  apply run_sound in Hrun as (ws1 & s1 & cap1 & -> & Hws1 & Hrun & _).
  rewrite run_Cat in Hrun.
  apply run_Group_capture in Hrun as (tok & s2 & -> & Htok & Hrun).
  rewrite run_Cat in Hrun.
  apply run_sound in Hrun as (ws2 & s3 & cap3 & -> & Hws2 & Hrun & Hc3).
  rewrite (Hc3 eq_refl) in Hrun.
  apply run_sound in Hrun as (sep & s4 & cap4 & -> & Hsep & Hk & Hc4).
  rewrite (Hc4 eq_refl) in Hk.
  exists ws1, tok, ws2, sep, s4.
  apply Matches_Plus_class in Hws1, Htok, Hws2.
  repeat split; try (apply Hws1 || apply Htok || apply Hws2); [|exact Hk].
  inversion Hsep as [| |r1 r2 m Hm|r1 r2 m Hm| | |]; subst.
  - left. apply (Matches_word "from"); [discriminate | exact Hm].
  - right. apply (Matches_word "to"); [discriminate | exact Hm].
Qed.

Lemma capturesToken_packageTail : capturesToken packageTail.
Proof.
  intros R s cap k x Hrun.
  apply run_packageTail_sound in Hrun
    as (ws1 & tok & ws2 & sep & s1 & _ & _ & Htok & _ & _ & Hk).
  now exists s1, tok.
Qed.

Lemma capturesToken_Cat (r1 r2 : re) :
  capturesToken r2 → capturesToken (Cat r1 r2).
Proof.
  intros H2 R s cap k x Hrun. rewrite run_Cat in Hrun.
  apply run_sound in Hrun as (m & s1 & cap1 & _ & _ & Hrun & _).
  now apply H2 in Hrun.
Qed.

Lemma capturesToken_patterns :
  Forall (λ pat, capturesToken pat.1 ∧ pat.2 = 1%nat) patterns.
Proof.
  unfold patterns, bumpPattern, updatePattern, chorePattern.
  pose proof capturesToken_packageTail as Htail.
  constructor; [split; [|reflexivity]|].
  { now apply capturesToken_Cat. }
  constructor; [split; [|reflexivity]|].
  { now apply capturesToken_Cat. }
  constructor; [split; [|reflexivity]|constructor].
  cbn [fst]. apply capturesToken_Cat, capturesToken_Cat.
  now apply capturesToken_Cat.
Qed.

(** The result of [FindStringSubmatch] is [nil] or the match and a token. *)
Lemma FindStringSubmatch_token (r : re) (t : string) :
  capturesToken r →
  FindStringSubmatch r t = []
  ∨ ∃ m tok, FindStringSubmatch r t = [m; tok] ∧ isToken tok.
Proof.
  intros Hr. unfold FindStringSubmatch.
  destruct (run r t "" _) as [matches|] eqn:E; [right | now left].
  apply Hr in E as (s1 & tok & Hk & Htok). injection Hk as <-.
  now eexists _, tok.
Qed.

Lemma matchPatterns_token (ps : list (re * nat)) (t : string) :
  Forall (λ pat, capturesToken pat.1 ∧ pat.2 = 1%nat) ps →
  (matchPatterns ps t = ""
   ∧ Forall (λ pat, FindStringSubmatch pat.1 t = []) ps)
  ∨ isToken (matchPatterns ps t).
Proof.
  induction 1 as [|[regex pkgIndex] ps [Hr Hi] _ IH].
  - left. split; [reflexivity | constructor].
  - cbn [fst snd] in Hr, Hi. subst pkgIndex. cbn [matchPatterns].
    destruct (FindStringSubmatch_token regex t Hr) as [E|(m & tok & E & Htok)];
      rewrite E.
    + simpl. destruct IH as [[IH1 IH2]|IH]; [left | now right].
      split; [assumption|]. constructor; assumption.
    + right. exact Htok.
Qed.

(** ** The package name of a title *)

Lemma isReSpace_isSpace (c : ascii) : isReSpace c = true → isSpace c = true.
Proof. unfold isReSpace, isSpace. lia. Qed.

Lemma allBytes_impl (f g : ascii → bool) (s : string) :
  (∀ c, f c = true → g c = true) → allBytes f s = true → allBytes g s = true.
Proof.
  intros Hfg. induction s as [|c s IH]; [reflexivity|]. simpl.
  intros [Hc Hs]%andb_true_iff. now rewrite (Hfg c Hc), IH.
Qed.

Lemma allBytes_rev_app (f : ascii → bool) (s1 s2 : string) :
  allBytes f (String.rev_app s1 s2) = allBytes f s1 && allBytes f s2.
Proof.
  revert s2. induction s1 as [|c s1 IH]; intros s2; [reflexivity|].
  simpl. rewrite IH. simpl. now rewrite andb_assoc, (andb_comm (f c)).
Qed.

Lemma rev_app_empty (s1 s2 : string) : String.rev_app s1 s2 = "" → s2 = "".
Proof.
  revert s2. induction s1 as [|c s1 IH]; intros s2 H; [exact H|].
  simpl in H. apply IH in H. discriminate.
Qed.

(** The fields of a text are not empty and hold no white space. *)
Lemma fieldsGo_fields (cur s part : string) :
  allBytes (λ c, negb (isSpace c)) cur = true →
  part ∈ fieldsGo cur s →
  part ≠ "" ∧ allBytes (λ c, negb (isSpace c)) part = true.
Proof.
  assert (Hrev : ∀ a cur', allBytes (λ c, negb (isSpace c)) (String a cur') = true →
            String.rev (String a cur') ≠ ""
            ∧ allBytes (λ c, negb (isSpace c)) (String.rev (String a cur')) = true).
  { intros a cur' H. unfold String.rev. split.
    - intros E. simpl in E. apply rev_app_empty in E. discriminate.
    - now rewrite allBytes_rev_app, H. }
  revert cur. induction s as [|c s IH]; intros cur Hcur Hin.
  - simpl in Hin. destruct cur as [|a cur]; [now apply elem_of_nil in Hin|].
    apply list_elem_of_singleton in Hin as ->. now apply Hrev.
  - cbn [fieldsGo] in Hin. destruct (isSpace c) eqn:Hc.
    + destruct cur as [|a cur]; [now apply (IH "")|].
      apply elem_of_cons in Hin as [->|Hin]; [now apply Hrev | now apply (IH "")].
    + apply (IH (String c cur)); [|exact Hin]. simpl. now rewrite Hc.
Qed.

Lemma Fields_tokens (t part : string) : part ∈ Fields t → isToken part.
Proof.
  intros Hin. apply fieldsGo_fields in Hin as [Hne Hall]; [|reflexivity].
  split; [exact Hne|]. revert Hall. apply allBytes_impl.
  intros c Hc. unfold notReSpace. apply negb_true_iff.
  apply negb_true_iff in Hc. apply not_true_iff_false. intros H.
  apply isReSpace_isSpace in H. congruence.
Qed.

Lemma firstPackageLike_elem (parts : list string) :
  firstPackageLike parts = "" ∨ firstPackageLike parts ∈ parts.
Proof.
  induction parts as [|part parts IH]; [now left|].
  cbn [firstPackageLike]. destruct (_ || _).
  - right. apply list_elem_of_here.
  - destruct IH as [IH|IH]; [now left|]. right. now apply list_elem_of_further.
Qed.

Lemma extractPackageName_token (t : string) :
  extractPackageName t = "" ∨ isToken (extractPackageName t).
Proof.
  unfold extractPackageName.
  destruct (matchPatterns_token patterns t capturesToken_patterns)
    as [[E _]|Htok].
  - rewrite E. cbn [String.eqb].
    destruct (1 <? length (Fields t))%nat; [|now left].
    destruct (firstPackageLike_elem (drop 1 (Fields t))) as [E'|Hin];
      [now left|].
    right. apply (Fields_tokens t).
    apply list_elem_of_lookup in Hin as [i Hi]. rewrite lookup_drop in Hi.
    apply list_elem_of_lookup. eauto.
  - destruct (String.eqb_spec (matchPatterns patterns t) "") as [E|_];
      [|now right].
    destruct Htok as [Hne _]. congruence.
Qed.


Lemma substring_prefix (m s1 : string) :
  substring 0 (String.length (m +:+ s1) - String.length s1) (m +:+ s1) = m.
Proof. now rewrite length_append, Nat.add_sub, substring_append_l. Qed.

Lemma run_word_mismatch {R : Type} (w : string) (a : ascii) (s cap : string)
    (k : string → string → option R) :
  headIs (λ c, Ascii.eqb (toLowerByte a) c) w = false →
  w ≠ "" → run (word w) (String a s) cap k = None.
Proof.
  intros Hhd Hw. destruct w as [|c w]; [congruence|]. simpl in Hhd.
  destruct w as [|c' w].
  - simpl. now rewrite Hhd.
  - change (word (String c (String c' w)))
      with (Cat (letter c) (word (String c' w))).
    rewrite run_Cat. unfold letter. rewrite run_Byte_cons. now rewrite Hhd.
Qed.

(** The converse of [run_packageTail_sound]: on a gap, a token, a gap and
    [from] or [to], the search succeeds as the continuation does. *)
Lemma run_packageTail_complete {R : Type} (ws1 X ws2 sep rest cap : string)
    (k : string → string → option R) (r : R) :
  isGap ws1 → isToken X → isGap ws2 →
  ToLower sep = "from" ∨ ToLower sep = "to" →
  k rest X = Some r →
  run packageTail (ws1 +:+ X +:+ ws2 +:+ sep +:+ rest) cap k = Some r.
Proof.
  intros [Hws1 Hs1] [HX HnX] [Hws2 Hs2] Hsep Hk.
  unfold packageTail. rewrite run_Cat.
  apply run_plus_class; [assumption | assumption
                        | now apply headIs_notReSpace_append |].
  rewrite run_Cat.
  apply run_group_plus_class;
    [assumption | assumption | now apply headIs_class_append |].
  rewrite run_Cat.
  apply run_plus_class; [assumption | assumption | |].
  - destruct sep as [|a sep]; [destruct Hsep; discriminate|].
    rewrite append_cons. simpl.
    destruct Hsep as [Hsep|Hsep]; simpl in Hsep; injection Hsep as Ha _;
      apply (letter_not_space _ _ Ha); simpl; lia.
  - cbn [run]. destruct Hsep as [Hsep|Hsep].
    + rewrite (run_word "from" sep rest X k); [now rewrite Hk | discriminate | assumption].
    + destruct sep as [|a sep]; [discriminate|].
      rewrite append_cons, run_word_mismatch.
      * rewrite <- append_cons.
        rewrite (run_word "to" (String a sep) rest X k);
          [exact Hk | discriminate | assumption].
      * simpl in Hsep. injection Hsep as Ha _. simpl. now rewrite Ha.
      * discriminate.
Qed.

Lemma FindStringSubmatch_keyword_iff (w t m x : string) :
  w ≠ "" →
  FindStringSubmatch (Cat (word w) packageTail) t = [m; x]
  ↔ keywordTitle w t m x.
Proof.
  intros Hw. unfold FindStringSubmatch, keywordTitle. split.
  - destruct (run _ t "" _) as [matches|] eqn:E; [|discriminate].
    intros ->. rewrite run_Cat in E.
    apply run_sound in E as (kw & s1 & cap1 & -> & Hkw & E & _).
    apply Matches_word in Hkw; [|exact Hw].
    apply run_packageTail_sound in E
      as (ws1 & tok & ws2 & sep & rest & -> & H1 & Htok & H2 & Hsep & Hk).
    injection Hk as Hm Hx. subst x.
    exists kw, ws1, ws2, sep, rest.
    split; [reflexivity|]. split; [|tauto].
    rewrite <- Hm.
    replace (kw +:+ ws1 +:+ tok +:+ ws2 +:+ sep +:+ rest)
      with ((kw +:+ ws1 +:+ tok +:+ ws2 +:+ sep) +:+ rest)
      by now rewrite !append_assoc.
    now rewrite substring_prefix.
  - intros (kw & ws1 & ws2 & sep & rest & -> & -> & Hkw & H1 & Hx & H2 & Hsep).
    rewrite run_Cat, (run_word w kw _ _ _ Hw Hkw).
    erewrite run_packageTail_complete; try eassumption; [|reflexivity].
    replace (kw +:+ ws1 +:+ x +:+ ws2 +:+ sep +:+ rest)
      with ((kw +:+ ws1 +:+ x +:+ ws2 +:+ sep) +:+ rest)
      by now rewrite !append_assoc.
    now rewrite substring_prefix.
Qed.

(** X2: the expressions for ["Bump"] and ["Update"] match a title exactly
    when it is the keyword in any case, white space, a token without white
    space, white space, and [from] or [to] in any case, followed by anything;
    the group is the token and the match ends with [from] or [to]. *)
Theorem keyword_patterns_shape (t m x : string) :
  (FindStringSubmatch bumpPattern t = [m; x] ↔ keywordTitle "bump" t m x)
  ∧ (FindStringSubmatch updatePattern t = [m; x] ↔ keywordTitle "update" t m x).
Proof. split; now apply FindStringSubmatch_keyword_iff. Qed.

Lemma keywordTitle_head (w t m x : string) (c : ascii) (w' : string) :
  w = String c w' → keywordTitle w t m x →
  ∃ a t', t = String a t' ∧ toLowerByte a = c.
Proof.
  intros -> (kw & ws1 & ws2 & sep & rest & -> & _ & Hkw & _).
  destruct kw as [|a kw]; [discriminate|]. simpl in Hkw.
  injection Hkw as Ha _. rewrite append_cons. now exists a, (kw +:+ ws1 +:+ x +:+ ws2 +:+ sep +:+ rest).
Qed.

(** X3: a title that begins with ["Bump"] or ["Update"] in any case, then
    white space, a token [x] without white space, white space and [from] or
    [to] in any case, has the package name [x]. *)
Theorem keyword_title_package (t m x : string) :
  keywordTitle "bump" t m x ∨ keywordTitle "update" t m x →
  (extractPackageInfo t).1 = x.
Proof.
  intros H. cbn [extractPackageInfo fst].
  assert (Hx : x ≠ "").
  { destruct H as [H|H]; destruct H as (? & ? & ? & ? & ? & _ & _ & _ & _ & [Hx _] & _);
      exact Hx. }
  assert (Hm : matchPatterns patterns t = x).
  { destruct H as [H|H].
    - apply (FindStringSubmatch_keyword_iff "bump") in H; [|discriminate].
      now apply (matchPatterns_bump t m x).
    - unfold patterns. cbn [matchPatterns].
      destruct (FindStringSubmatch_token bumpPattern t) as [E|(m' & x' & E & _)].
      + apply capturesToken_Cat, capturesToken_packageTail.
      + rewrite E. simpl.
        apply (FindStringSubmatch_keyword_iff "update") in H; [|discriminate].
        unfold updatePattern. now rewrite H.
      + exfalso. apply (FindStringSubmatch_keyword_iff "bump") in E; [|discriminate].
        eapply keywordTitle_head in E as (a & t' & -> & Ha); [|reflexivity].
        eapply keywordTitle_head in H as (a' & t'' & Ht & Ha'); [|reflexivity].
        injection Ht as <- _. rewrite Ha in Ha'. discriminate. }
  rewrite extractPackageName_patterns; rewrite Hm; [reflexivity | exact Hx].
Qed.

Lemma keyword_title_package_witness :
  (extractPackageInfo "Update rails to 7.0.0").1 = "rails".
Proof.
  apply (keyword_title_package _ "Update rails to"). right.
  exists "Update", " ", " ", "to", " 7.0.0".
  repeat split; discriminate || (now left) || (now right) || reflexivity.
Defined.

(** ** Segments *)

Lemma Split_no_sep (s : string) (c : ascii) :
  Contains s (String c "") = false → Split s c = [s].
Proof.
  induction s as [|a s IH]; intros H; [reflexivity|].
  rewrite Contains_byte_cons in H. apply orb_false_iff in H as [Ha Hs].
  cbn [Split]. now rewrite Ha, (IH Hs).
Qed.

Lemma Split_first (a b : string) (c : ascii) :
  Contains a (String c "") = false →
  Split (a +:+ String c b) c = a :: Split b c.
Proof.
  induction a as [|h a IH]; intros H.
  - rewrite append_nil_l. cbn [Split]. now rewrite Ascii.eqb_refl.
  - rewrite Contains_byte_cons in H. apply orb_false_iff in H as [Hh Ha].
    rewrite append_cons. cbn [Split]. now rewrite Hh, (IH Ha).
Qed.

Lemma Split_parts (s : string) (c : ascii) (part : string) :
  part ∈ Split s c → Contains part (String c "") = false.
Proof.
  revert part. induction s as [|a s IH]; intros part Hin.
  - apply list_elem_of_singleton in Hin as ->. reflexivity.
  - cbn [Split] in Hin. destruct (Ascii.eqb a c) eqn:Ha.
    + apply elem_of_cons in Hin as [->|Hin]; [reflexivity | now apply IH].
    + destruct (Split s c) as [|seg segs] eqn:E.
      * apply list_elem_of_singleton in Hin as ->.
        now rewrite Contains_byte_cons, Ha.
      * apply elem_of_cons in Hin as [->|Hin].
        -- rewrite Contains_byte_cons, Ha. apply IH, list_elem_of_here.
        -- now apply IH, list_elem_of_further.
Qed.

Lemma Split_nonempty (s : string) (c : ascii) : Split s c ≠ [].
Proof.
  destruct s as [|a s]; [discriminate|]. cbn [Split].
  destruct (Ascii.eqb a c); [discriminate|]. now destruct (Split s c).
Qed.

Lemma Split_one (s b : string) (c : ascii) :
  Split s c = [b] → s = b ∧ Contains s (String c "") = false.
Proof.
  revert b. induction s as [|h s IH]; intros b H.
  - injection H as <-. now split.
  - cbn [Split] in H. destruct (Ascii.eqb h c) eqn:Hh.
    + injection H as _ H. now apply Split_nonempty in H.
    + destruct (Split s c) as [|seg segs] eqn:E; [now apply Split_nonempty in E|].
      injection H as <- ->. destruct (IH seg eq_refl) as [-> Hs].
      split; [reflexivity|]. now rewrite Contains_byte_cons, Hh.
Qed.

(** Two segments are a text with exactly one separator. *)
Lemma Split_two (s a b : string) (c : ascii) :
  Split s c = [a; b]
  ↔ s = a +:+ String c b
    ∧ Contains a (String c "") = false ∧ Contains b (String c "") = false.
Proof.
  split.
  - revert a. induction s as [|h s IH]; intros a H; [discriminate|].
    cbn [Split] in H. destruct (Ascii.eqb_spec h c) as [->|Hne].
    + injection H as <- H. apply Split_one in H as [-> Hb].
      now rewrite append_nil_l.
    + destruct (Split s c) as [|seg segs] eqn:E; [discriminate|].
      injection H as <- ->. destruct (IH seg eq_refl) as (-> & Hseg & Hb).
      rewrite append_cons. repeat split; [|exact Hb].
      rewrite Contains_byte_cons, Hseg. now apply Ascii.eqb_neq in Hne as ->.
  - intros (-> & Ha & Hb). now rewrite Split_first, Split_no_sep.
Qed.

Lemma Contains_dropBytes (n : nat) (s : string) (c : ascii) :
  Contains s (String c "") = false →
  Contains (dropBytes n s) (String c "") = false.
Proof.
  revert s. induction n as [|n IH]; intros s H; [exact H|].
  destruct s as [|a s]; [exact H|]. simpl.
  rewrite Contains_byte_cons in H. apply orb_false_iff in H as [_ Hs].
  now apply IH.
Qed.

Lemma lookup_total_Split (s : string) (c : ascii) (i : nat) :
  Contains (Split s c !!! i) (String c "") = false.
Proof.
  destruct (Split s c !! i) as [part|] eqn:E.
  - rewrite (list_lookup_total_correct _ _ _ E).
    eapply Split_parts, list_elem_of_lookup_2, E.
  - rewrite list_lookup_total_alt, E. reflexivity.
Qed.

Lemma firstOrgLike_elem (i : nat) (parts : list string) :
  firstOrgLike i parts = ""
  ∨ ∃ j, (0 < i + j)%nat ∧ parts !! j = Some (firstOrgLike i parts)
         ∧ Contains (firstOrgLike i parts) "." = false
         ∧ HasPrefix (firstOrgLike i parts) "v" = false.
Proof.
  revert i. induction parts as [|part parts IH]; intros i; [now left|].
  cbn [firstOrgLike].
  destruct ((0 <? i)%nat && negb (Contains part ".")
            && negb (HasPrefix part "v")) eqn:Hc.
  - apply andb_true_iff in Hc as [[Hi Hd]%andb_true_iff Hv].
    apply Nat.ltb_lt in Hi. apply negb_true_iff in Hd, Hv.
    right. exists 0%nat. split; [lia|]. split; [reflexivity|]. now split.
  - destruct (IH (S i)) as [E|(j & Hj & Hl & Hd & Hv)]; [now left|].
    right. exists (S j). split; [lia|]. split; [exact Hl|]. now split.
Qed.

Lemma caseless_slash : caseless "/".
Proof. unfold caseless. simpl. lia. Qed.

(** X4: the organisation of a title is a single segment: it never holds a
    ["/"], and it is empty when the package name has no ["/"]. *)
Theorem org_is_segment (t : string) :
  Contains (extractPackageInfo t).2 "/" = false
  ∧ (Contains (extractPackageInfo t).1 "/" = false →
     (extractPackageInfo t).2 = "").
Proof.
  cbn [extractPackageInfo fst snd]. generalize (extractPackageName t) as p.
  intros p. unfold extractOrgName. split.
  - destruct (negb _); [|reflexivity].
    destruct (HasPrefix p "@" && Contains p "/").
    { unfold TrimPrefix. destruct (HasPrefix _ "@").
      - apply Contains_dropBytes, lookup_total_Split.
      - apply lookup_total_Split. }
    destruct (Contains p "/"); [|reflexivity].
    destruct (_ || _); [reflexivity|].
    destruct (HasPrefix p "gopkg.in/").
    { destruct (2 <? _)%nat; [|reflexivity].
      rewrite Contains_byte_ToLower by exact caseless_slash.
      apply lookup_total_Split. }
    destruct (_ && _); [apply lookup_total_Split|].
    destruct (firstOrgLike_elem 0 (Split p "/")) as [->|(j & _ & Hl & _)];
      [reflexivity|].
    eapply Split_parts, list_elem_of_lookup_2, Hl.
  - intros Hp. rewrite Hp, andb_false_r. now destruct (negb _).
Qed.

(** X5: a scoped package name, ["@"], a scope without ["/"], ["/"] and a
    name, has the scope as its organisation. *)
Theorem scoped_package_org (t p o scope name : string) :
  extractPackageInfo t = (p, o) →
  p = "@" +:+ scope +:+ "/" +:+ name → Contains scope "/" = false →
  o = scope.
Proof.
  intros Hinfo -> Hscope. unfold extractPackageInfo in Hinfo.
  injection Hinfo as Hp <-. rewrite Hp. unfold extractOrgName.
  assert (Hs : Contains ("@" +:+ scope +:+ "/" +:+ name) "/" = true)
    by (apply Contains_true; now exists ("@" +:+ scope), name).
  rewrite Hs.
  change ("@" +:+ scope +:+ "/" +:+ name)
    with (String "@" scope +:+ String "/" name).
  rewrite Split_first by (now rewrite Contains_byte_cons, Hscope).
  reflexivity.
Qed.

Lemma scoped_package_org_witness :
  (extractPackageInfo "Bump @datadog/browser-rum from 4.0.0 to 5.0.0").2
  = "datadog".
Proof.
  apply (scoped_package_org
           "Bump @datadog/browser-rum from 4.0.0 to 5.0.0"
           "@datadog/browser-rum" _ "datadog" "browser-rum");
    reflexivity.
Defined.

Lemma firstOrgLike_first (i : nat) (parts : list string) :
  firstOrgLike i parts = ""
  ∨ ∃ j, (0 < i + j)%nat ∧ parts !! j = Some (firstOrgLike i parts)
         ∧ Contains (firstOrgLike i parts) "." = false
         ∧ HasPrefix (firstOrgLike i parts) "v" = false
         ∧ ∀ j' seg, (0 < i + j')%nat → (j' < j)%nat → parts !! j' = Some seg →
             Contains seg "." = true ∨ HasPrefix seg "v" = true.
Proof.
  revert i. induction parts as [|part parts IH]; intros i; [now left|].
  cbn [firstOrgLike].
  destruct ((0 <? i)%nat && negb (Contains part ".")
            && negb (HasPrefix part "v")) eqn:Hc.
  - apply andb_true_iff in Hc as [[Hi Hd]%andb_true_iff Hv].
    apply Nat.ltb_lt in Hi. apply negb_true_iff in Hd, Hv.
    right. exists 0%nat. split; [lia|]. split; [reflexivity|].
    split; [exact Hd|]. split; [exact Hv|]. intros j' seg _ Hlt. lia.
  - destruct (IH (S i)) as [E|(j & Hj & Hl & Hd & Hv & Hfirst)]; [now left|].
    right. exists (S j). split; [lia|]. split; [exact Hl|].
    split; [exact Hd|]. split; [exact Hv|].
    intros [|j'] seg Hpos Hlt Hseg.
    + simpl in Hseg. injection Hseg as <-.
      assert (Hi : (0 <? i)%nat = true) by (apply Nat.ltb_lt; lia).
      rewrite Hi in Hc. cbn [andb] in Hc.
      destruct (Contains part "."); [now left|].
      destruct (HasPrefix part "v"); [now right | discriminate].
    + simpl in Hseg. apply (Hfirst j' seg); [lia | lia | exact Hseg].
Qed.

(** X6: for a package name with ["/"] that is not scoped, is under none of
    ["golang.org/x/"], ["google.golang.org/"] and ["gopkg.in/"], and is not a
    ["github.com/"] name of three segments or more, the organisation is empty
    or it is the first segment after the host that has no ["."] and does not
    begin with ["v"]: a host name or a version such as ["v2"] is never taken
    as the organisation. *)
Theorem generic_package_org (t p o : string) :
  extractPackageInfo t = (p, o) →
  Contains p "/" = true → HasPrefix p "@" = false →
  HasPrefix p "golang.org/x/" = false →
  HasPrefix p "google.golang.org/" = false →
  HasPrefix p "gopkg.in/" = false →
  HasPrefix p "github.com/" = false ∨ (length (Split p "/") < 3)%nat →
  o = ""
  ∨ ∃ j, (0 < j)%nat ∧ Split p "/" !! j = Some o
         ∧ Contains o "." = false ∧ HasPrefix o "v" = false
         ∧ ∀ j' seg, (0 < j')%nat → (j' < j)%nat →
             Split p "/" !! j' = Some seg →
             Contains seg "." = true ∨ HasPrefix seg "v" = true.
Proof.
  intros Hinfo Hs Hat Hx Hg Hi Hgh. unfold extractPackageInfo in Hinfo.
  injection Hinfo as Hp <-. rewrite Hp. unfold extractOrgName.
  rewrite Hs, Hat, Hx, Hg, Hi. cbn [andb orb].
  destruct (negb (p =? "")%string); [|now left].
  assert (Hc : (3 <=? length (Split p "/"))%nat && HasPrefix p "github.com/"
               = false).
  { destruct Hgh as [->|Hlen]; [apply andb_false_r|].
    apply Nat.leb_gt in Hlen. now rewrite Hlen. }
  rewrite Hc. apply (firstOrgLike_first 0).
Qed.

Lemma generic_package_org_witness :
  (extractPackageInfo "Bump gitlab.com/v2/acme/tool from 1.0.0 to 1.1.0").2
  = "acme".
Proof.
  destruct (generic_package_org
              "Bump gitlab.com/v2/acme/tool from 1.0.0 to 1.1.0"
              "gitlab.com/v2/acme/tool" _ eq_refl eq_refl eq_refl eq_refl
              eq_refl eq_refl (or_introl eq_refl)) as [H|(j & _ & H & _)].
  - vm_compute in H. discriminate H.
  - destruct j as [|[|[|[|j]]]]; vm_compute in H; try discriminate H.
    reflexivity.
Defined.

(** ** The verdict of the matcher *)

Lemma caseless_star : caseless "*".
Proof. unfold caseless. simpl. lia. Qed.

Lemma EqualFold_lowered (s t : string) :
  EqualFold (ToLower s) (ToLower t) = EqualFold s t.
Proof. now rewrite !EqualFold_ToLower, !ToLower_idemp. Qed.

(** The test for one entry reads the package name and the entry through
    [ToLower] only. *)
Lemma packageDenied_lowered (p e : string) :
  packageDenied (ToLower p) (ToLower e) = packageDenied p e.
Proof.
  unfold packageDenied.
  rewrite !(Contains_byte_ToLower _ e) by (exact caseless_star || exact caseless_at).
  now rewrite EqualFold_lowered, !ToLower_idemp.
Qed.



Lemma existsb_fmap {A B : Type} (f : B → bool) (g : A → B) (l : list A) :
  existsb f (g <$> l) = existsb (λ x, f (g x)) l.
Proof.
  induction l as [|x l IH]; [reflexivity|].
  rewrite fmap_cons. cbn [existsb]. now rewrite IH.
Qed.

Lemma existsb_ext_in {A : Type} (f g : A → bool) (l : list A) :
  (∀ x, x ∈ l → f x = g x) → existsb f l = existsb g l.
Proof.
  induction l as [|x l IH]; intros H; [reflexivity|]. simpl.
  rewrite (H x) by apply list_elem_of_here.
  rewrite IH; [reflexivity|]. intros y Hy. now apply H, list_elem_of_further.
Qed.

(** X7: the verdict does not depend on the case of any letter, in the
    package name, the organisation or the entries of either list. *)
Theorem isDenied_case_insensitive (p o : string) (pkgs orgs : list string) :
  isDenied (ToLower p) (ToLower o) (ToLower <$> pkgs) (ToLower <$> orgs)
  = isDenied p o pkgs orgs.
Proof.
  unfold isDenied. rewrite !existsb_fmap.
  rewrite (existsb_ext_in _ (packageDenied p) pkgs)
    by (intros e _; apply packageDenied_lowered).
  rewrite (existsb_ext_in _ (EqualFold o) orgs)
    by (intros d _; apply EqualFold_lowered).
  reflexivity.
Qed.

Lemma isDenied_subseteq (p o : string) (pkgs pkgs' orgs orgs' : list string) :
  pkgs ⊆ pkgs' → orgs ⊆ orgs' →
  isDenied p o pkgs orgs = true → isDenied p o pkgs' orgs' = true.
Proof.
  intros Hp Ho H. apply isDenied_true.
  apply isDenied_true in H as [(e & He & Hd)|(d & Hd & Hf)].
  - left. exists e. split; [now apply Hp | exact Hd].
  - right. exists d. split; [now apply Ho | exact Hf].
Qed.

(** X8: entries only add denials, and their order does not matter: what is
    denied under two lists is denied under any lists that hold their
    entries. *)
Theorem isDenied_monotone (p o : string) (pkgs pkgs' orgs orgs' : list string) :
  pkgs ⊆ pkgs' → orgs ⊆ orgs' →
  isDenied p o pkgs orgs = true → isDenied p o pkgs' orgs' = true.
Proof. apply isDenied_subseteq. Qed.

Lemma isDenied_monotone_witness :
  isDenied "left-pad" "" ["lodash"; "left-pad"; "*rc*"] ["acme"] = true.
Proof.
  apply (isDenied_monotone "left-pad" "" ["left-pad"] _ [] _).
  - intros e He. apply list_elem_of_singleton in He as ->.
    apply list_elem_of_further, list_elem_of_here.
  - intros d Hd. now apply elem_of_nil in Hd.
  - reflexivity.
Defined.







(** ** Entries that can never match *)

Lemma isReSpace_toLowerByte (c : ascii) :
  isReSpace (toLowerByte c) = isReSpace c.
Proof.
  unfold isReSpace. rewrite N_of_toLowerByte.
  destruct (isUpper c) eqn:E; [|reflexivity]. unfold isUpper in E. lia.
Qed.

Lemma allBytes_notReSpace_ToLower (s : string) :
  allBytes notReSpace (ToLower s) = allBytes notReSpace s.
Proof.
  induction s as [|c s IH]; [reflexivity|]. simpl.
  unfold notReSpace at 1 3. now rewrite isReSpace_toLowerByte, IH.
Qed.

Lemma allBytes_substring (f : ascii → bool) (n : nat) (s : string) :
  allBytes f s = true → allBytes f (substring 0 n s) = true.
Proof.
  revert s. induction n as [|n IH]; intros [|c s] H; try reflexivity.
  simpl in *. apply andb_true_iff in H as [Hc Hs]. now rewrite Hc, IH.
Qed.

Lemma Contains_allBytes (f : ascii → bool) (s e : string) :
  allBytes f s = true → Contains s e = true → allBytes f e = true.
Proof.
  intros Hs (x & v & ->)%Contains_true.
  rewrite !allBytes_append in Hs.
  now apply andb_true_iff in Hs as [_ [He _]%andb_true_iff].
Qed.

(** A package name without white space matches no entry with white space. *)
Lemma packageDenied_space_entry (p e : string) :
  allBytes notReSpace p = true → someByte isReSpace e = true →
  packageDenied p e = false.
Proof.
  intros Hp He. unfold someByte in He. apply negb_true_iff in He.
  change (allBytes notReSpace e = false) in He.
  rewrite <- allBytes_notReSpace_ToLower in Hp, He.
  assert (Hneq : ∀ x, allBytes notReSpace x = true →
                   String.eqb x (ToLower e) = false).
  { intros x Hx. apply String.eqb_neq. intros ->. congruence. }
  assert (Hneq' : ∀ x, allBytes notReSpace x = true →
                    String.eqb (ToLower e) x = false).
  { intros x Hx. apply String.eqb_neq. intros <-. congruence. }
  unfold packageDenied. destruct (Contains e "*").
  - rewrite !Hneq' by reflexivity. reflexivity.
  - rewrite EqualFold_ToLower, (Hneq _ Hp).
    destruct (Contains e "@").
    + apply not_true_iff_false. intros Hc.
      apply (Contains_allBytes notReSpace) in Hc; [congruence | exact Hp].
    + destruct (0 <? _); [|reflexivity].
      apply Hneq. unfold sliceTo. now apply allBytes_substring.
Qed.

Lemma existsb_filter {A : Type} (f g : A → bool) (l : list A) :
  (∀ x, g x = false → f x = false) →
  existsb f (List.filter g l) = existsb f l.
Proof.
  intros H. induction l as [|x l IH]; [reflexivity|]. simpl.
  destruct (g x) eqn:E; simpl; [now rewrite IH|].
  now rewrite (H x E), IH.
Qed.

(** X10: an entry of the package deny list that holds a space, a tab or a
    line break matches the package name of no title: the verdict for a pull
    request is the same with such entries left out. *)
Theorem space_entries_never_match (t : string) (pkgs orgs : list string) :
  isDenied (extractPackageInfo t).1 (extractPackageInfo t).2 pkgs orgs
  = isDenied (extractPackageInfo t).1 (extractPackageInfo t).2
      (List.filter (λ e, negb (someByte isReSpace e)) pkgs) orgs.
Proof.
  unfold isDenied. rewrite existsb_filter; [reflexivity|].
  intros e He. apply negb_false_iff in He.
  apply packageDenied_space_entry; [|exact He].
  cbn [extractPackageInfo fst].
  destruct (extractPackageName_token t) as [->|[_ H]]; [reflexivity | exact H].
Qed.

(** ** The reason of a skipped pull request *)

Lemma packageDenied_names (p e : string) :
  Contains e "*" = false → packageDenied p e = true → namesPackage p e = true.
Proof.
  intros Hs Hd. unfold namesPackage. destruct (Contains e "@") eqn:Ha.
  - rewrite packageDenied_versioned in Hd by assumption.
    rewrite Hd. apply orb_true_r.
  - destruct (proj1 (packageDenied_plain p e Hs Ha) Hd)
      as [->|(x & v & _ & -> & Hf)]; [reflexivity|].
    apply orb_true_iff. right. apply Contains_true.
    apply EqualFold_true in Hf. exists "", (ToLower ("@" +:+ v)).
    now rewrite ToLower_append, Hf.
Qed.

Lemma find_is_Some {A : Type} (f : A → bool) (l : list A) (x : A) :
  x ∈ l → f x = true → ∃ y, List.find f l = Some y.
Proof.
  induction l as [|z l IH]; intros Hin Hx; [now apply elem_of_nil in Hin|].
  simpl. destruct (f z) eqn:E; [now exists z|].
  apply elem_of_cons in Hin as [->|Hin]; [congruence | now apply IH].
Qed.

(** X11: when no entry of the package deny list has a ["*"] and no entry of
    either list is empty, a skipped pull request always has a reason; the
    skipped record with an empty reason comes from wildcard entries only. *)
Theorem skipped_has_reason {error : Type} (g : GithubAPI error)
    (q : DependencyUpdateQuery) (p : PullRequest) :
  Forall (λ e, Contains e "*" = false ∧ e ≠ "") (DeniedPackages q) →
  Forall (λ d, d ≠ "") (DeniedOrgs q) →
  Skipped (prInfo g q p) = true →
  SkipReason (prInfo g q p) ≠ "".
Proof.
  intros Hpk Hor Hsk. rewrite Forall_forall in Hpk, Hor.
  destruct (prInfo_fields g q p) as (_ & _ & _ & Hs & Hr & _).
  rewrite Hsk in Hr. rewrite Hr. rewrite Hsk in Hs. clear Hr Hsk.
  set (pkg := (extractPackageInfo (title p)).1) in *.
  set (org := (extractPackageInfo (title p)).2) in *.
  unfold skipReason. rewrite orgSkipReason_match, packageSkipReason_find.
  symmetry in Hs. apply isDenied_true in Hs as [(e & He & Hd)|(d & Hd & Hf)].
  - destruct (Hpk e He) as [Hstar Hne].
    assert (Hpkg : (pkg =? "")%string = false).
    { apply String.eqb_neq. intros E. rewrite E in Hd.
      rewrite packageDenied_empty in Hd; [discriminate | exact Hne]. }
    destruct (find_is_Some (namesPackage pkg) _ e He
                (packageDenied_names pkg e Hstar Hd)) as [y Hy].
    rewrite Hpkg, Hy.
    destruct (negb (org =? "")%string);
      [destruct (existsb _ _)|]; cbn; discriminate.
  - assert (Horg : (org =? "")%string = false).
    { apply String.eqb_neq. intros E. rewrite E in Hf.
      apply EqualFold_empty_l in Hf. now apply (Hor d). }
    assert (Hex : existsb (EqualFold org) (DeniedOrgs q) = true)
      by (apply existsb_EqualFold; now exists d).
    rewrite Horg, Hex. cbn. discriminate.
Qed.

Lemma skipped_has_reason_witness :
  let g : GithubAPI unit :=
    {| pullRequestsList := λ _ _, inr []; getCombinedStatus := λ _ _ _, inl () |} in
  let q := {| Owner := "acme"; Repo := "app";
              DeniedPackages := ["github.com/pkg/errors"]; DeniedOrgs := ["elastic"] |} in
  let p := {| userID := dependabotUserID; number := 3;
              title := "Bump github.com/pkg/errors from 0.8.0 to 0.9.1";
              htmlURL := "https://example.test/pull/3"; headSHA := "c0ffee" |} in
  SkipReason (prInfo g q p) ≠ "".
Proof.
  intros g q p. apply skipped_has_reason.
  - repeat constructor; discriminate.
  - repeat constructor; discriminate.
  - reflexivity.
Defined.

(** ** The records of a repository *)

(** X12: when the listing fails, its error is returned and no record is.
    When it succeeds, the records are those of the pull requests of
    Dependabot, one each and in the order of the listing, so never more than
    the listing holds; a record that is not skipped has no reason, and a
    record whose status lookup succeeded carries the state it returned. *)
Theorem records_of_listing {error : Type} (g : GithubAPI error)
    (q : DependencyUpdateQuery) :
  (∀ err, pullRequestsList g (Owner q) (Repo q) = inl err →
          GetDependabotPRsWithDenyList g q = inl err)
  ∧ (∀ prs, GetDependabotPRsWithDenyList g q = inr prs →
       ∃ pulls,
         pullRequestsList g (Owner q) (Repo q) = inr pulls
         ∧ (length prs ≤ length pulls)%nat
         ∧ Forall2
             (λ p r,
                p ∈ pulls ∧ userID p = dependabotUserID
                ∧ Number r = number p ∧ Title r = title p ∧ URL r = htmlURL p
                ∧ (Skipped r = false → SkipReason r = "")
                ∧ ∀ state,
                    getCombinedStatus g (Owner q) (Repo q) (headSHA p)
                    = inr state →
                    Status r = state)
             (List.filter isDependabot pulls) prs).
Proof.
  unfold GetDependabotPRsWithDenyList. split.
  - intros err ->. reflexivity.
  - intros prs. destruct (pullRequestsList g (Owner q) (Repo q)) as [err|pulls];
      [discriminate|].
    intros [= <-]. exists pulls. split; [reflexivity|].
    rewrite collectPRs_filter, app_nil_l. split.
    + rewrite length_fmap. pose proof (List.filter_length isDependabot pulls).
      lia.
    + apply Forall2_fmap_r, Forall_Forall2_diag, Forall_forall.
      intros p Hp. apply list_elem_of_In, filter_In in Hp as [Hin Hdep].
      destruct (prInfo_fields g q p) as (Hn & Ht & Hu & _ & Hr & Hst).
      split; [now apply list_elem_of_In|].
      split; [now apply Z.eqb_eq|].
      repeat (split; [assumption|]). split.
      * intros Hsk. now rewrite Hr, Hsk.
      * intros state Hstate. now rewrite Hst, Hstate.
Qed.

(** ** More on the merge *)

Lemma removeDuplicatesLoop_app (seen : gmap string bool) (l1 l2 : list string) :
  ∃ seen',
    removeDuplicatesLoop seen [] (l1 ++ l2)
    = removeDuplicatesLoop seen [] l1 ++ removeDuplicatesLoop seen' [] l2.
Proof.
  revert seen. induction l1 as [|x l1 IH]; intros seen.
  - now exists seen.
  - cbn [app]. rewrite !removeDuplicatesLoop_cons. destruct (kept seen x).
    + destruct (IH (<[normalized x := true]> seen)) as [seen' ->].
      now exists seen'.
    + apply IH.
Qed.

(** X13: the override of a repository can only add entries of its own after
    the global ones: the merged list is the global list without duplicates
    (which is also the merged list for a repository without override),
    followed by entries of the override in their order. *)
Theorem override_appends (global repoOverride : DenyPolicy) :
  (∃ added,
     denied_packages (resolve global repoOverride)
     = denied_packages (resolve global emptyPolicy) ++ added
     ∧ sublist added (denied_packages repoOverride))
  ∧ (∃ added,
       denied_orgs (resolve global repoOverride)
       = denied_orgs (resolve global emptyPolicy) ++ added
       ∧ sublist added (denied_orgs repoOverride)).
Proof.
  unfold resolve. cbn [denied_packages denied_orgs emptyPolicy].
  rewrite !app_nil_r. unfold removeDuplicates. split.
  - destruct (removeDuplicatesLoop_app ∅ (denied_packages global)
                (denied_packages repoOverride)) as [seen' ->].
    eexists. split; [reflexivity | apply removeDuplicatesLoop_sublist].
  - destruct (removeDuplicatesLoop_app ∅ (denied_orgs global)
                (denied_orgs repoOverride)) as [seen' ->].
    eexists. split; [reflexivity | apply removeDuplicatesLoop_sublist].
Qed.



(** ** The repository argument *)

(** X15: a repository argument is accepted exactly when it is an owner, one
    ["/"] and a repository name, neither holding a ["/"] (either may be
    empty); the configuration key built for it is then the argument as it was
    typed. *)
Theorem splitRepoPath_accepts (repoPath owner repo repoKey : string) :
  splitRepoPath repoPath = Some (owner, repo, repoKey)
  ↔ repoPath = owner +:+ "/" +:+ repo
    ∧ Contains owner "/" = false ∧ Contains repo "/" = false
    ∧ repoKey = repoPath.
Proof.
  unfold splitRepoPath. split.
  - destruct (Split repoPath "/") as [|a [|b [|c l]]] eqn:E; try discriminate.
    cbn. intros [= <- <- <-].
    apply Split_two in E as (-> & Ha & Hb). now repeat split.
  - intros (-> & Ha & Hb & ->).
    change (owner +:+ "/" +:+ repo) with (owner +:+ String "/" repo).
    rewrite (proj2 (Split_two _ owner repo "/")) by now repeat split.
    reflexivity.
Qed.

(** ** Titles of the [chore] form *)

Lemma starLoop_class_some {R : Type} (f : ascii → bool) (mid s cap : string)
    (k : string → string → option R) (fuel : nat) :
  allBytes f mid = true → (String.length mid ≤ fuel)%nat →
  is_Some (k s cap) →
  is_Some (starLoop (run (Byte f)) k fuel (mid +:+ s) cap).
Proof.
  intros Hmid Hfuel Hk. revert fuel Hfuel.
  induction mid as [|a mid IH]; intros fuel Hfuel.
  - rewrite append_nil_l. destruct fuel as [|fuel]; [exact Hk|].
    rewrite starLoop_S. now destruct (run (Byte f) s cap _).
  - simpl in Hmid. apply andb_true_iff in Hmid as [Ha Hmid].
    destruct fuel as [|fuel]; [simpl in Hfuel; lia|].
    rewrite append_cons, starLoop_S, run_Byte_cons, Ha.
    assert (Hlt : (String.length (mid +:+ s)
                   <? String.length (String a (mid +:+ s)))%nat = true)
      by (apply Nat.ltb_lt; simpl; lia).
    rewrite Hlt.
    destruct (IH Hmid fuel) as [x ->]; [simpl in Hfuel; lia | now exists x].
Qed.

Lemma run_keyword_complete {R : Type} (w t m x cap : string)
    (k : string → string → option R) :
  w ≠ "" → keywordTitle w t m x → (∀ s1, is_Some (k s1 x)) →
  is_Some (run (Cat (word w) packageTail) t cap k).
Proof.
  intros Hw (kw & ws1 & ws2 & sep & rest & -> & _ & Hkw & H1 & Hx & H2 & Hsep) Hk.
  rewrite run_Cat, (run_word w kw _ _ _ Hw Hkw).
  destruct (Hk rest) as [r Hr].
  exists r. now apply run_packageTail_complete.
Qed.

Lemma FindStringSubmatch_chore_sound (t m x : string) :
  FindStringSubmatch chorePattern t = [m; x] → choreTitle t m x.
Proof.
  unfold FindStringSubmatch, chorePattern.
  destruct (run _ t "" _) as [matches|] eqn:E; [|discriminate].
  intros ->. rewrite run_Cat in E.
  apply run_sound in E as (c & s1 & cap1 & -> & Hc & E & _).
  apply Matches_word in Hc; [|discriminate].
  rewrite run_Cat in E.
  apply run_sound in E as (mid & tail & cap2 & -> & Hmid & E & _).
  apply Matches_Star_class in Hmid.
  rewrite run_Cat in E.
  apply run_sound in E as (kw & s3 & cap3 & -> & Hkw & E & _).
  apply Matches_word in Hkw; [|discriminate].
  apply run_packageTail_sound in E
    as (ws1 & tok & ws2 & sep & rest & -> & H1 & Htok & H2 & Hsep & Hk).
  injection Hk as Hm <-.
  exists c, mid, (kw +:+ ws1 +:+ tok +:+ ws2 +:+ sep +:+ rest),
    (kw +:+ ws1 +:+ tok +:+ ws2 +:+ sep).
  split; [reflexivity|]. split.
  - rewrite <- Hm.
    replace (c +:+ mid +:+ kw +:+ ws1 +:+ tok +:+ ws2 +:+ sep +:+ rest)
      with ((c +:+ mid +:+ kw +:+ ws1 +:+ tok +:+ ws2 +:+ sep) +:+ rest)
      by now rewrite !append_assoc.
    now rewrite substring_prefix.
  - split; [exact Hc|]. split; [exact Hmid|].
    exists kw, ws1, ws2, sep, rest.
    split; [reflexivity|]. split; [reflexivity|]. tauto.
Qed.

Lemma FindStringSubmatch_chore_complete (t m x : string) :
  choreTitle t m x → FindStringSubmatch chorePattern t ≠ [].
Proof.
  intros (c & mid & tail & m' & -> & _ & Hc & Hmid & Htail).
  unfold FindStringSubmatch, chorePattern.
  rewrite run_Cat, (run_word "chore" c _ _ _ ltac:(discriminate) Hc).
  rewrite run_Cat, run_Star.
  match goal with
  | |- context [starLoop ?step ?k ?fuel ?s ?cap] =>
      destruct (starLoop_class_some notNewline mid tail cap k fuel Hmid)
        as [r Hr]
  end.
  - rewrite length_append. lia.
  - apply (run_keyword_complete "bump" tail m' x); [discriminate | exact Htail|].
    intros s1. now eexists.
  - change (Byte notNewline) with anyByte in Hr. rewrite Hr.
    unfold FindStringSubmatch, chorePattern in *.
    pose proof Hr as Hr'. rewrite <- run_Star in Hr'.
    apply run_sound in Hr' as (? & ? & ? & _ & _ & Hk & _).
    apply run_sound in Hk as (? & ? & ? & _ & _ & Hk & _). now injection Hk as <-.
Qed.

(** X16: the third expression matches a title exactly when the title is
    [chore] in any case, a stretch without line break, and from there
    ["bump"], white space, a token, white space and [from] or [to]; the group
    is the token of such a reading.  Every title of that shape is matched
    by the expression, and its package name is the group of that match. *)
Theorem chore_title_package (t m x : string) :
  (FindStringSubmatch chorePattern t = [m; x] → choreTitle t m x)
  ∧ (choreTitle t m x →
     ∃ m' x', FindStringSubmatch chorePattern t = [m'; x']
              ∧ choreTitle t m' x'
              ∧ (extractPackageInfo t).1 = x').
Proof.
  split; [apply FindStringSubmatch_chore_sound|]. intros Hchore.
  pose proof (FindStringSubmatch_chore_complete t m x Hchore) as Hne.
  destruct (FindStringSubmatch_token chorePattern t) as [E|(m' & x' & E & Hx')].
  { unfold chorePattern. apply capturesToken_Cat, capturesToken_Cat.
    apply capturesToken_Cat, capturesToken_packageTail. }
  { congruence. }
  exists m', x'. split; [exact E|].
  split; [now apply FindStringSubmatch_chore_sound|].
  assert (Hhead : ∃ a t', t = String a t' ∧ toLowerByte a = "c"%char).
  { destruct Hchore as (c & mid & tail & _ & -> & _ & Hc & _).
    destruct c as [|a c]; [discriminate|]. simpl in Hc. injection Hc as Ha _.
    rewrite append_cons. now eexists a, _. }
  destruct Hhead as (a & t' & -> & Ha).
  assert (Hno : ∀ w c w', w = String c w' → c ≠ "c"%char →
                  FindStringSubmatch (Cat (word w) packageTail) (String a t') = []).
  { intros w c w' Hw Hcc.
    destruct (FindStringSubmatch_token (Cat (word w) packageTail) (String a t'))
      as [E'|(m1 & x1 & E' & _)];
      [apply capturesToken_Cat, capturesToken_packageTail | exact E' |].
    exfalso. apply FindStringSubmatch_keyword_iff in E'; [|subst w; discriminate].
    eapply keywordTitle_head in E' as (a' & t'' & Ht & Ha'); [|exact Hw].
    injection Ht as <- _. congruence. }
  cbn [extractPackageInfo fst].
  assert (Hm : matchPatterns patterns (String a t') = x').
  { unfold patterns. cbn [matchPatterns]. unfold bumpPattern, updatePattern.
    rewrite (Hno "bump" "b"%char "ump" eq_refl ltac:(discriminate)).
    rewrite (Hno "update" "u"%char "pdate" eq_refl ltac:(discriminate)).
    cbn. now rewrite E. }
  destruct Hx' as [Hx' _].
  rewrite extractPackageName_patterns; rewrite Hm; [reflexivity | exact Hx'].
Qed.

Lemma chore_title_package_witness :
  (extractPackageInfo "chore(deps): bump lodash from 4.17.20 to 4.17.21").1
  = "lodash".
Proof.
  destruct (chore_title_package
              "chore(deps): bump lodash from 4.17.20 to 4.17.21"
              "chore(deps): bump lodash from" "lodash") as [_ H].
  destruct H as (m' & x' & E & _ & Hpkg).
  - exists "chore", "(deps): ", "bump lodash from 4.17.20 to 4.17.21",
      "bump lodash from".
    repeat split.
    exists "bump", " ", " ", "from", " 4.17.20 to 4.17.21".
    repeat split; discriminate || (now left) || reflexivity.
  - rewrite Hpkg. vm_compute in E. now injection E as _ <-.
Defined.
